(** * zettelkasten-mcp: the MongoDB-backed note repository

    A shallow embedding of [src/zettelkasten_mcp/storage/mongo_repository.py]
    together with the collection it talks to, and the properties of the
    repository contract that hold (or fail) on it.

    Conventions.
    - A stored document ([Dict[str, Any]]) is a [gmap string value] over a
      small universe of document values.
    - [datetime] values are integers (a count of microseconds); the clock
      reading [datetime.datetime.now()] and the identifier produced by
      [generate_id()] are explicit inputs of the operations that use them.
    - Python [str] is [string], a text of 8-bit characters; the case
      folding of the matcher is that of the letters A-Z, which is the
      folding of [re.IGNORECASE] on text of the ASCII range, and statements
      about case are made for such text.
    - An operation that can raise returns a [result]; an operation that
      mutates the collection returns the outcome paired with the collection
      it leaves behind, so that the state after a failure can be observed. *)

From stdpp Require Import gmap strings list fin_maps sorting.
From Stdlib Require Import ZArith Ascii.

Local Open Scope Z_scope.
Local Open Scope string_scope.

(** ** Document values *)

#[warnings="-register-all"]
Inductive value : Type :=
| VNone
| VStr (s : string)
| VDate (t : Z)
| VList (l : list value)
| VDict (d : gmap string value).

(** Python [==] on document values: structural, [False] across kinds. *)
Fixpoint value_eqb (a b : value) {struct a} : bool :=
  match a, b with
  | VNone, VNone => true
  | VStr s, VStr t => String.eqb s t
  | VDate s, VDate t => Z.eqb s t
  | VList l, VList m =>
      (fix go (l m : list value) : bool :=
         match l, m with
         | [], [] => true
         | x :: l', y :: m' => value_eqb x y && go l' m'
         | _, _ => false
         end) l m
  | VDict d, VDict e =>
      bool_decide (dom d = dom e) &&
      map_fold (fun k v acc =>
                  acc && match e !! k with
                         | Some w => value_eqb v w
                         | None => false
                         end) true d
  | _, _ => false
  end.

(** [d.get(k)]: a missing key reads as [None]. *)
Definition dict_get (d : gmap string value) (k : string) : value :=
  default VNone (d !! k).

(** [d.get(k, dflt)]. *)
Definition dict_get_or (d : gmap string value) (k : string) (dflt : value) : value :=
  default dflt (d !! k).

(** ** Exceptions and results *)

Inductive exn : Type :=
| ValueError (msg : string)
| TypeError
| AttributeError
| ValidationError
| DuplicateKeyError
| IOError (cause : exn)
| NotModelled.

(** [isinstance(exc, PyMongoError)]: of the exceptions above only the
    duplicate-key error of the unique index on [id] is raised by the driver. *)
Definition is_PyMongoError (e : exn) : bool :=
  match e with
  | DuplicateKeyError => true
  | _ => false
  end.

Inductive result (A : Type) : Type :=
| Ok (a : A)
| Raise (e : exn).
Arguments Ok {A} a.
Arguments Raise {A} e.

#[global] Instance result_ret : MRet result := fun _ a => Ok a.
#[global] Instance result_bind : MBind result := fun _ _ f m =>
  match m with
  | Ok a => f a
  | Raise e => Raise e
  end.
#[global] Instance result_fmap : FMap result := fun _ _ f m =>
  match m with
  | Ok a => Ok (f a)
  | Raise e => Raise e
  end.

(** ** The data model *)

(** The module [zettelkasten_mcp/models/schema.py], which declares [Note],
    [Tag], [Link], [NoteType] and [LinkType], is not among the sources.
    Its types are taken from the data model table of the specification
    (section 3). *)
Module Schema.

(** Modelled from the spec: the [NoteType] enum of the missing schema
    module, with the five members of the data model table. *)
Inductive NoteType := FLEETING | LITERATURE | PERMANENT | STRUCTURE | HUB.

(** Modelled from the spec: the [LinkType] enum of the missing schema
    module, with the seven members of the data model table. *)
Inductive LinkType :=
| REFERENCE | EXTENDS | REFINES | CONTRADICTS | QUESTIONS | SUPPORTS | RELATED.

(** Modelled from the spec: the value of an enum member of the missing
    schema module is its name in lower case, as the table writes it. *)
Definition NoteType_value (t : NoteType) : string :=
  match t with
  | FLEETING => "fleeting"
  | LITERATURE => "literature"
  | PERMANENT => "permanent"
  | STRUCTURE => "structure"
  | HUB => "hub"
  end.

(** Modelled from the spec: the value of a [LinkType] member, likewise. *)
Definition LinkType_value (t : LinkType) : string :=
  match t with
  | REFERENCE => "reference"
  | EXTENDS => "extends"
  | REFINES => "refines"
  | CONTRADICTS => "contradicts"
  | QUESTIONS => "questions"
  | SUPPORTS => "supports"
  | RELATED => "related"
  end.

Definition all_NoteType : list NoteType :=
  [FLEETING; LITERATURE; PERMANENT; STRUCTURE; HUB].

Definition all_LinkType : list LinkType :=
  [REFERENCE; EXTENDS; REFINES; CONTRADICTS; QUESTIONS; SUPPORTS; RELATED].

(** [NoteType(v)]: the member whose value is [v]; [ValueError] when there
    is none. *)
Definition NoteType_of (v : value) : result NoteType :=
  match v with
  | VStr s =>
      match List.find (fun t => String.eqb (NoteType_value t) s) all_NoteType with
      | Some t => Ok t
      | None => Raise (ValueError (s +:+ " is not a valid NoteType"))
      end
  | _ => Raise (ValueError "not a valid NoteType")
  end.

(** [LinkType(v)]. *)
Definition LinkType_of (v : value) : result LinkType :=
  match v with
  | VStr s =>
      match List.find (fun t => String.eqb (LinkType_value t) s) all_LinkType with
      | Some t => Ok t
      | None => Raise (ValueError (s +:+ " is not a valid LinkType"))
      end
  | _ => Raise (ValueError "not a valid LinkType")
  end.

(** Modelled from the spec: the [Tag], [Link] and [Note] models of the
    missing schema module, with the fields of the data model table; tags
    and links are the Python lists the repository iterates over. *)
Record Tag := { name : string }.

Record Link := {
  source_id : string;
  target_id : string;
  link_type : LinkType;
  description : option string;
  link_created_at : Z;
}.

Record Note := {
  note_id : string;
  title : string;
  content : string;
  note_type : NoteType;
  tags : list Tag;
  links : list Link;
  created_at : Z;
  updated_at : Z;
  metadata : gmap string value;
}.

(** [note.id = i] *)
Definition set_id (i : string) (n : Note) : Note :=
  {| note_id := i; title := title n; content := content n;
     note_type := note_type n; tags := tags n; links := links n;
     created_at := created_at n; updated_at := updated_at n;
     metadata := metadata n |}.

(** [note.updated_at = t] *)
Definition set_updated_at (t : Z) (n : Note) : Note :=
  {| note_id := note_id n; title := title n; content := content n;
     note_type := note_type n; tags := tags n; links := links n;
     created_at := created_at n; updated_at := t;
     metadata := metadata n |}.

(** Modelled from the spec: field validation by the constructors of the
    missing schema module, for a [str] field, an
    [Optional[str]] field, a [datetime] field and a [Dict[str, Any]]
    field.  What the validation library would coerce rather than reject
    (a date written as text) is left outside the model. *)
Definition as_str (v : value) : result string :=
  match v with
  | VStr s => Ok s
  | _ => Raise ValidationError
  end.

Definition as_opt_str (v : value) : result (option string) :=
  match v with
  | VNone => Ok None
  | VStr s => Ok (Some s)
  | _ => Raise ValidationError
  end.

Definition as_datetime (v : value) : result Z :=
  match v with
  | VDate t => Ok t
  | VStr _ => Raise NotModelled
  | _ => Raise ValidationError
  end.

Definition as_dict (v : value) : result (gmap string value) :=
  match v with
  | VDict d => Ok d
  | _ => Raise ValidationError
  end.

End Schema.
Import Schema.

Arguments NoteType_of : simpl never.
Arguments LinkType_of : simpl never.
Arguments NoteType_value : simpl never.
Arguments LinkType_value : simpl never.

(** [str(v)] for the values whose rendering is fixed by the language. *)
Definition py_str (v : value) : result string :=
  match v with
  | VStr s => Ok s
  | VNone => Ok "None"
  | _ => Raise NotModelled
  end.

(** [for x in v]: a list yields its items, [None] and dates are not
    iterable; iterating text or a dictionary is left outside the model. *)
Definition py_iter (v : value) : result (list value) :=
  match v with
  | VList l => Ok l
  | VNone | VDate _ => Raise TypeError
  | VStr _ | VDict _ => Raise NotModelled
  end.

(** [x.get]: only dictionaries have it. *)
Definition py_as_dict (v : value) : result (gmap string value) :=
  match v with
  | VDict d => Ok d
  | _ => Raise AttributeError
  end.

(** ** Note <-> document conversion *)

Definition opt_str_value (o : option string) : value :=
  match o with
  | Some s => VStr s
  | None => VNone
  end.

Definition link_to_document (link : Link) : value :=
  VDict {[ "source_id" := VStr (source_id link);
           "target_id" := VStr (target_id link);
           "link_type" := VStr (LinkType_value (link_type link));
           "description" := opt_str_value (description link);
           "created_at" := VDate (link_created_at link) ]}.

Definition _note_to_document (note : Note) : gmap string value :=
  {[ "id" := VStr (note_id note);
     "title" := VStr (title note);
     "content" := VStr (content note);
     "note_type" := VStr (NoteType_value (note_type note));
     "tags" := VList (map (fun tag => VStr (name tag)) (tags note));
     "links" := VList (map link_to_document (links note));
     "created_at" := VDate (created_at note);
     "updated_at" := VDate (updated_at note);
     "metadata" := VDict (metadata note) ]}.

(** The comprehension body that reads one link, and [_document_to_note].
    [now] is the clock reading that stands in for a date the document
    lacks.  The code takes a reading of its own for each such default
    ([created_at] of each link, [created_at] and [updated_at] of the note);
    one reading stands for them here, and a statement that names a
    defaulted date is made for documents that lack at most one. *)
Definition document_to_link (now : Z) (doc : gmap string value) (v : value)
  : result Link :=
  src ← py_str (dict_get doc "id");
  link ← py_as_dict v;
  tgt ← py_str (dict_get link "target_id");
  lt ← LinkType_of (dict_get_or link "link_type" (VStr (LinkType_value REFERENCE)));
  descr ← as_opt_str (dict_get link "description");
  cat ← as_datetime (dict_get_or link "created_at" (VDate now));
  mret {| source_id := src; target_id := tgt; link_type := lt;
          description := descr; link_created_at := cat |}.

Definition _document_to_note (now : Z) (doc : gmap string value) : result Note :=
  tag_values ← py_iter (dict_get_or doc "tags" (VList []));
  tags ← mapM (fun tag => s ← as_str tag; mret {| name := s |}) tag_values;
  link_values ← py_iter (dict_get_or doc "links" (VList []));
  links ← mapM (document_to_link now doc) link_values;
  i ← py_str (dict_get doc "id");
  nt ← NoteType_of (dict_get_or doc "note_type" (VStr (NoteType_value PERMANENT)));
  ti ← as_str (dict_get_or doc "title" (VStr ""));
  co ← as_str (dict_get_or doc "content" (VStr ""));
  cat ← as_datetime (dict_get_or doc "created_at" (VDate now));
  uat ← as_datetime (dict_get_or doc "updated_at" (VDate now));
  md ← as_dict (dict_get_or doc "metadata" (VDict ∅));
  mret {| note_id := i; title := ti; content := co; note_type := nt;
          tags := tags; links := links; created_at := cat;
          updated_at := uat; metadata := md |}.

(** The note a stored note reads back as: every link is attributed to the
    note that holds it. *)
Definition own_link (i : string) (l : Link) : Link :=
  {| source_id := i; target_id := target_id l; link_type := link_type l;
     description := description l; link_created_at := link_created_at l |}.

Definition own_links (n : Note) : Note :=
  {| note_id := note_id n; title := title n; content := content n;
     note_type := note_type n; tags := tags n;
     links := map (own_link (note_id n)) (links n);
     created_at := created_at n; updated_at := updated_at n;
     metadata := metadata n |}.

(** ** Regular expressions

    The collection evaluates a [$regex] criterion with [re.search].  The
    fragment of the pattern language modelled here is: an ordinary character
    matches itself, [.] matches any character except a newline.  A pattern
    that uses any other special character is outside the fragment
    ([compile] gives [None]) and a query that holds one is answered
    [NotModelled]. *)
Module Re.

Inductive atom := Lit (c : ascii) | AnyChar.

Definition special : list ascii := String.list_ascii_of_string ".^$*+?{}[]\|()".

Definition is_special (c : ascii) : bool := existsb (Ascii.eqb c) special.

Fixpoint compile (p : string) : option (list atom) :=
  match p with
  | EmptyString => Some []
  | String c p' =>
      if Ascii.eqb c "." then cons AnyChar <$> compile p'
      else if is_special c then None
      else cons (Lit c) <$> compile p'
  end.

(** Lower case of the letters A-Z; any other character is left as it is.
    This is the case folding of [re.IGNORECASE] on characters of the ASCII
    range only. *)
Definition lower (c : ascii) : ascii :=
  let n := nat_of_ascii c in
  if ((65 <=? n) && (n <=? 90))%nat then ascii_of_nat (n + 32) else c.

Definition newline : ascii := ascii_of_nat 10.

Definition atom_matches (ignorecase : bool) (a : atom) (c : ascii) : bool :=
  match a with
  | Lit x => if ignorecase then Ascii.eqb (lower x) (lower c) else Ascii.eqb x c
  | AnyChar => negb (Ascii.eqb c newline)
  end.

(** The pattern matches a prefix of the text. *)
Fixpoint match_here (ignorecase : bool) (r : list atom) (text : string) : bool :=
  match r with
  | [] => true
  | a :: r' =>
      match text with
      | EmptyString => false
      | String c text' => atom_matches ignorecase a c && match_here ignorecase r' text'
      end
  end.

(** [re.search(pattern, text, flags)] is not [None]: the pattern matches
    at some position of the text. *)
Fixpoint search (ignorecase : bool) (r : list atom) (text : string) : bool :=
  match_here ignorecase r text ||
  match text with
  | EmptyString => false
  | String _ text' => search ignorecase r text'
  end.

End Re.

(** [s.lower().find("i") >= 0] *)
Fixpoint has_i (s : string) : bool :=
  match s with
  | EmptyString => false
  | String c s' => Ascii.eqb (Re.lower c) "i" || has_i s'
  end.

(** ** The collection

    The collection follows [FakeCollection] of [tests/test_mongo_repository.py],
    the in-repository stand-in for the driver: documents are kept in
    insertion order and copied in and out.  Three points follow the MongoDB
    driver where the stand-in is sloppier: the violation of the unique
    index on [id] is a driver error ([DuplicateKeyError], a [PyMongoError])
    rather than a bare exception; a stored value of another kind never
    satisfies a date bound, where the stand-in would raise [TypeError]; and
    the [$or] connective, which no repository query uses, is outside the
    model. *)

Definition collection : Type := list (gmap string value).

(** [key.split(".")] *)
Fixpoint split_dot (s : string) : list string :=
  match s with
  | EmptyString => [EmptyString]
  | String c s' =>
      if Ascii.eqb c "." then EmptyString :: split_dot s'
      else match split_dot s' with
           | p :: ps => String c p :: ps
           | [] => [String c EmptyString]
           end
  end.

(** The members of a dictionary that are not [None], as a list of zero or
    one. *)
Definition member (d : gmap string value) (part : string) : list value :=
  match d !! part with
  | Some VNone | None => []
  | Some v => [v]
  end.

(** One round of the loop over the parts of a dotted key. *)
Definition descend (part : string) (values : list value) : list value :=
  flat_map (fun val =>
    match val with
    | VList items =>
        flat_map (fun item =>
          match item with
          | VDict d => member d part
          | _ => [item]
          end) items
    | VDict d => member d part
    | _ => []
    end) values.

Definition _get_field_values (doc : gmap string value) (key : string) : list value :=
  let values := fold_left (fun values part => descend part values) (split_dot key) [VDict doc] in
  flat_map (fun val => match val with VList l => l | _ => [val] end) values.

(** [v >= bound] and [v <= bound] on dates. *)
Definition value_ge (v bound : value) : bool :=
  match v, bound with
  | VDate t, VDate b => (b <=? t)%Z
  | _, _ => false
  end.

Definition value_le (v bound : value) : bool :=
  match v, bound with
  | VDate t, VDate b => (t <=? b)%Z
  | _, _ => false
  end.

(** An operator dictionary ([$regex] with [$options], [$in], [$gte], [$lte])
    against the values of a field: each operator present must be satisfied
    by some value. *)
Definition regex_flags (ops : gmap string value) : bool :=
  match dict_get_or ops "$options" (VStr "") with
  | VStr o => has_i o
  | _ => false
  end.

Definition ops_match (values : list value) (ops : gmap string value) : bool :=
  match ops !! "$regex" with
  | Some (VStr pattern) =>
      match Re.compile pattern with
      | Some r =>
          existsb (fun v => match v with
                            | VStr s => Re.search (regex_flags ops) r s
                            | _ => false
                            end) values
      | None => false
      end
  | Some _ => false
  | None => true
  end
  && match ops !! "$in" with
     | Some (VList allowed) => existsb (fun v => existsb (value_eqb v) allowed) values
     | Some _ => false
     | None => true
     end
  && match ops !! "$gte" with
     | Some bound => existsb (fun v => value_ge v bound) values
     | None => true
     end
  && match ops !! "$lte" with
     | Some bound => existsb (fun v => value_le v bound) values
     | None => true
     end.

(** One entry of a filter against a document. *)
Definition clause (doc : gmap string value) (key : string) (value : value) : bool :=
  let values := _get_field_values doc key in
  match value with
  | VDict ops => ops_match values ops
  | _ => existsb (fun v => value_eqb v value) values
  end.

Definition _match (doc filt : gmap string value) : bool :=
  bool_decide (map_Forall (fun key value => clause doc key value) filt).

(** The filters the model answers: no [$or], every [$regex] a pattern of
    the fragment with textual [$options], every [$in] a list, every date
    bound a date. *)
Definition supported_ops (ops : gmap string value) : bool :=
  match ops !! "$regex" with
  | Some (VStr pattern) => bool_decide (is_Some (Re.compile pattern))
  | Some _ => false
  | None => true
  end
  && match dict_get_or ops "$options" (VStr "") with
     | VStr _ => true
     | _ => false
     end
  && match ops !! "$in" with
     | Some (VList _) | None => true
     | Some _ => false
     end
  && match ops !! "$gte" with
     | Some (VDate _) | None => true
     | Some _ => false
     end
  && match ops !! "$lte" with
     | Some (VDate _) | None => true
     | Some _ => false
     end.

Definition supported_clause (key : string) (value : value) : bool :=
  negb (String.eqb key "$or") &&
  match value with
  | VDict ops => supported_ops ops
  | _ => true
  end.

Definition supported (filt : gmap string value) : bool :=
  bool_decide (map_Forall (fun key value => supported_clause key value) filt).

Definition insert_one (doc : gmap string value) (docs : collection)
  : result unit * collection :=
  if existsb (fun existing => value_eqb (dict_get existing "id") (dict_get doc "id")) docs
  then (Raise DuplicateKeyError, docs)
  else (Ok (), (docs ++ [doc])%list).

Definition find (filt : gmap string value) (docs : collection)
  : result (list (gmap string value)) :=
  if supported filt then Ok (List.filter (fun doc => _match doc filt) docs)
  else Raise NotModelled.

Definition find_one (filt : gmap string value) (docs : collection)
  : result (option (gmap string value)) :=
  found ← find filt docs;
  mret (head found).

(** [doc.update(update["$set"])] *)
Definition apply_update (update doc : gmap string value) : gmap string value :=
  match update !! "$set" with
  | Some (VDict fields) => fields ∪ doc
  | _ => doc
  end.

(** Returns [matched_count]. *)
Definition update_one (filt update : gmap string value) (docs : collection)
  : result nat * collection :=
  if supported filt
  then (Ok (length (List.filter (fun doc => _match doc filt) docs)),
        map (fun doc => if _match doc filt then apply_update update doc else doc) docs)
  else (Raise NotModelled, docs).

(** The list without its first element that satisfies [p], when there is one. *)
Fixpoint pop_first {A : Type} (p : A → bool) (l : list A) : option (list A) :=
  match l with
  | [] => None
  | x :: l' => if p x then Some l' else cons x <$> pop_first p l'
  end.

(** Returns [deleted_count]. *)
Definition delete_one (filt : gmap string value) (docs : collection)
  : result nat * collection :=
  if supported filt
  then match pop_first (fun doc => _match doc filt) docs with
       | Some docs' => (Ok 1%nat, docs')
       | None => (Ok 0%nat, docs)
       end
  else (Raise NotModelled, docs).

(** ** The repository: [MongoNoteRepository] *)

(** [bool(document)]: a dictionary is true when it has an entry. *)
Definition truthy (doc : gmap string value) : bool :=
  negb (Nat.eqb (size doc) 0).

Definition by_id (i : string) : gmap string value := {[ "id" := VStr i ]}.

(** [create(entity)], with [gen] the identifier [generate_id()] returns. *)
Definition create (gen : string) (entity : Note) (c : collection)
  : result Note * collection :=
  let note := if String.eqb (note_id entity) "" then set_id gen entity else entity in
  let document := _note_to_document note in
  match insert_one document c with
  | (Ok _, c') => (Ok note, c')
  | (Raise exc, c') =>
      if is_PyMongoError exc then (Raise (IOError exc), c') else (Raise exc, c')
  end.

Definition decode_found (now : Z) (document : option (gmap string value))
  : result (option Note) :=
  match document with
  | Some d => if truthy d then Some <$> _document_to_note now d else mret None
  | None => mret None
  end.

Definition get (now : Z) (i : string) (c : collection) : result (option Note) :=
  document ← find_one (by_id i) c;
  decode_found now document.

Definition get_all (now : Z) (c : collection) : result (list Note) :=
  docs ← find ∅ c;
  mapM (_document_to_note now) docs.

Definition get_by_title (now : Z) (t : string) (c : collection)
  : result (option Note) :=
  document ← find_one {[ "title" := VStr t ]} c;
  decode_found now document.

Definition not_exist (i : string) : exn :=
  ValueError ("Note with ID " +:+ i +:+ " does not exist").

(** [update(entity)], with [now] the clock reading. *)
Definition update (now : Z) (entity : Note) (c : collection)
  : result Note * collection :=
  let note := set_updated_at now entity in
  let document := _note_to_document note in
  match update_one (by_id (note_id note)) {[ "$set" := VDict document ]} c with
  | (Ok matched_count, c') =>
      if Nat.eqb matched_count 0 then (Raise (not_exist (note_id note)), c')
      else (Ok note, c')
  | (Raise exc, c') => (Raise exc, c')
  end.

Definition delete (i : string) (c : collection) : result unit * collection :=
  match delete_one (by_id i) c with
  | (Ok deleted_count, c') =>
      if Nat.eqb deleted_count 0 then (Raise (not_exist i), c')
      else (Ok (), c')
  | (Raise exc, c') => (Raise exc, c')
  end.

(** The keyword arguments of [search].  A field is [None] when the keyword
    is not passed.  [note_type] is a [NoteType] member or text; [tags] is a
    sequence of tag names or some object that is not a sequence. *)
Inductive tags_arg :=
| TagSeq (names : list string)
| TagNotSeq.

Record criteria := {
  kw_content : option string;
  kw_title : option string;
  kw_note_type : option (NoteType + string);
  kw_tag : option string;
  kw_tags : option tags_arg;
  kw_linked_to : option string;
  kw_linked_from : option string;
  kw_created_after : option Z;
  kw_created_before : option Z;
  kw_updated_after : option Z;
  kw_updated_before : option Z;
}.

Definition no_criteria : criteria :=
  {| kw_content := None; kw_title := None; kw_note_type := None;
     kw_tag := None; kw_tags := None; kw_linked_to := None;
     kw_linked_from := None; kw_created_after := None;
     kw_created_before := None; kw_updated_after := None;
     kw_updated_before := None |}.

(** [if k in kwargs: query = f(kwargs[k], query)] *)
Definition when {A : Type} (arg : option A)
    (f : A → gmap string value → gmap string value) (query : gmap string value)
  : gmap string value :=
  match arg with
  | Some a => f a query
  | None => query
  end.

Definition regex_i (pattern : string) : value :=
  VDict {[ "$regex" := VStr pattern; "$options" := VStr "i" ]}.

(** [query.setdefault(key, {}); query[key][op] = bound] *)
Definition set_op (key op : string) (bound : value) (query : gmap string value)
  : gmap string value :=
  match dict_get_or query key (VDict ∅) with
  | VDict ops => <[key := VDict (<[op := bound]> ops)]> query
  | _ => query
  end.

Definition search_query (kwargs : criteria) : gmap string value :=
  let query : gmap string value := ∅ in
  let query := when (kw_content kwargs) (fun s => <["content" := regex_i s]>) query in
  let query := when (kw_title kwargs) (fun s => <["title" := regex_i s]>) query in
  let query := when (kw_note_type kwargs)
                 (fun t => <["note_type" :=
                    VStr (match t with
                          | inl member => NoteType_value member
                          | inr s => s
                          end)]>) query in
  let query := when (kw_tag kwargs) (fun t => <["tags" := VStr t]>) query in
  let query := when (kw_tags kwargs)
                 (fun tags =>
                    match tags with
                    | TagSeq names => <["tags" := VDict {[ "$in" := VList (map VStr names) ]}]>
                    | TagNotSeq => fun query => query
                    end) query in
  let query := when (kw_linked_to kwargs) (fun i => <["links.target_id" := VStr i]>) query in
  let query := when (kw_linked_from kwargs) (fun i => <["links.target_id" := VStr i]>) query in
  let query := when (kw_created_after kwargs)
                 (fun t => <["created_at" := VDict {[ "$gte" := VDate t ]}]>) query in
  let query := when (kw_created_before kwargs)
                 (fun t => set_op "created_at" "$lte" (VDate t)) query in
  let query := when (kw_updated_after kwargs)
                 (fun t => <["updated_at" := VDict {[ "$gte" := VDate t ]}]>) query in
  let query := when (kw_updated_before kwargs)
                 (fun t => set_op "updated_at" "$lte" (VDate t)) query in
  query.

Definition search (now : Z) (kwargs : criteria) (c : collection)
  : result (list Note) :=
  docs ← find (search_query kwargs) c;
  mapM (_document_to_note now) docs.

Definition find_by_tag (now : Z) (tag : Tag + string) (c : collection)
  : result (list Note) :=
  let tag_name := match tag with inl t => name t | inr s => s end in
  docs ← find {[ "tags" := VStr tag_name ]} c;
  mapM (_document_to_note now) docs.

(** [results[k] = v] on a dictionary kept in insertion order: an existing
    key keeps its place. *)
Fixpoint dict_set {A : Type} (k : string) (v : A) (d : list (string * A))
  : list (string * A) :=
  match d with
  | [] => [(k, v)]
  | (k', v') :: d' =>
      if String.eqb k' k then (k, v) :: d' else (k', v') :: dict_set k v d'
  end.

(** A loop whose body may raise. *)
Fixpoint for_each {A S : Type} (body : S → A → result S) (s : S) (l : list A)
  : result S :=
  match l with
  | [] => mret s
  | x :: l' => s' ← body s x; for_each body s' l'
  end.

Definition is_direction (direction : string) : bool :=
  String.eqb direction "outgoing" || String.eqb direction "incoming"
  || String.eqb direction "both".

Definition find_linked_notes (now : Z) (i : string) (direction : string)
    (c : collection) : result (list Note) :=
  if negb (is_direction direction)
  then Raise (ValueError "direction must be 'outgoing', 'incoming', or 'both'")
  else
    let results : list (string * Note) := [] in
    results ←
      (if String.eqb direction "outgoing" || String.eqb direction "both"
       then
         note ← get now i c;
         match note with
         | Some note =>
             for_each (fun results link =>
                         target ← get now (target_id link) c;
                         match target with
                         | Some target => mret (dict_set (note_id target) target results)
                         | None => mret results
                         end) results (links note)
         | None => mret results
         end
       else mret results);
    results ←
      (if String.eqb direction "incoming" || String.eqb direction "both"
       then
         docs ← find {[ "links.target_id" := VStr i ]} c;
         for_each (fun results doc =>
                     if value_eqb (dict_get doc "id") (VStr i) then mret results
                     else
                       note ← _document_to_note now doc;
                       mret (dict_set (note_id note) note results)) results docs
       else mret results);
    mret (map snd results).

(** [rebuild_index()]: nothing to rebuild, the collection is the store. *)
Definition rebuild_index (c : collection) : result unit * collection :=
  (Ok (), c).

(** ** Reachable states

    The collection starts empty and changes only through the mutating
    operations of the repository. *)
Inductive operation :=
| Create (gen : string) (entity : Note)
| Update (now : Z) (entity : Note)
| Delete (i : string)
| RebuildIndex.

Definition run (o : operation) (c : collection) : collection :=
  match o with
  | Create gen entity => snd (create gen entity c)
  | Update now entity => snd (update now entity c)
  | Delete i => snd (delete i c)
  | RebuildIndex => snd (rebuild_index c)
  end.

Inductive reachable : collection → Prop :=
| reachable_empty : reachable []
| reachable_run (o : operation) (c : collection) :
    reachable c → reachable (run o c).

(** The triples [(source_id, target_id, link_type)] of the links held by a
    list of notes. *)
Definition link_triples (notes : list Note) : list (string * string * LinkType) :=
  flat_map (fun n => map (fun l => (source_id l, target_id l, link_type l)) (links n))
           notes.

(** ** What the specification says, in its own words *)

(** The code of a character. *)
Definition code (c : ascii) : nat := nat_of_ascii c.

(** Text of the ASCII range. *)
Definition ascii_text (s : string) : Prop :=
  Forall (fun c => (code c < 128)%nat) (String.list_ascii_of_string s).

(** The same character, or the two cases of one letter: the codes of the
    capital letters run from 65 to 90 and a small letter has the code of
    its capital plus 32. *)
Definition same_ignoring_case (a b : ascii) : Prop :=
  a = b
  ∨ ((65 ≤ code a ∧ code a ≤ 90)%nat ∧ code b = (code a + 32)%nat)
  ∨ ((65 ≤ code b ∧ code b ≤ 90)%nat ∧ code a = (code b + 32)%nat).

(** [text] contains [s] as a substring, ignoring case. *)
Definition contains_ignoring_case (s text : string) : Prop :=
  ∃ before mid after : string,
    text = before +:+ mid +:+ after
    ∧ Forall2 same_ignoring_case (String.list_ascii_of_string s)
                                 (String.list_ascii_of_string mid).

(** A character of a text against a character of a pattern: a dot stands
    for any character but the newline (code 10), any other character for
    itself in either case. *)
Definition fits (p c : ascii) : Prop :=
  (p = "."%char ∧ code c ≠ 10%nat) ∨ (p ≠ "."%char ∧ same_ignoring_case p c).

(** Some part of [text] is matched by [pattern], character by character. *)
Definition contains_match (pattern text : string) : Prop :=
  ∃ before mid after : string,
    text = before +:+ mid +:+ after
    ∧ Forall2 fits (String.list_ascii_of_string pattern)
                   (String.list_ascii_of_string mid).

Definition has_tag (n : Note) (t : string) : Prop :=
  t ∈ map name (tags n).

(** ** The representation invariant

    Every document of a reachable collection is the image of a note, and no
    two of them carry the same id. *)
Definition stores (c : collection) (notes : list Note) : Prop :=
  c = map _note_to_document notes ∧ NoDup (map note_id notes).

Definition has_id (i : string) (n : Note) : bool := String.eqb (note_id n) i.

(** The note [create] stores: the entity, under a generated id when it
    has none. *)
Definition created (gen : string) (entity : Note) : Note :=
  if String.eqb (note_id entity) "" then set_id gen entity else entity.

(** The list with [note] in the place of the notes that carry its id. *)
Definition replaced (note : Note) (ns : list Note) : list Note :=
  map (fun n => if has_id (note_id note) n then note else n) ns.

(** [t] lies between the bounds that are given, ends included. *)
Definition within (lo hi : option Z) (t : Z) : Prop :=
  (∀ s, lo = Some s → (s ≤ t)%Z) ∧ (∀ e, hi = Some e → (t ≤ e)%Z).

(** The pattern holds no character that the pattern language treats
    specially. *)
Definition plain (s : string) : Prop :=
  Forall (fun ch => Re.is_special ch = false) (String.list_ascii_of_string s).

(** Calls of [search] with a single kind of criterion:
    [search(title=s)], [search(content=s)], [search(tags=names)],
    [search(created_after=lo, created_before=hi)] and
    [search(updated_after=lo, updated_before=hi)], a bound being passed
    only when it is given. *)
Definition only_title (s : string) : criteria :=
  {| kw_content := None; kw_title := Some s; kw_note_type := None;
     kw_tag := None; kw_tags := None; kw_linked_to := None;
     kw_linked_from := None; kw_created_after := None;
     kw_created_before := None; kw_updated_after := None;
     kw_updated_before := None |}.

Definition only_content (s : string) : criteria :=
  {| kw_content := Some s; kw_title := None; kw_note_type := None;
     kw_tag := None; kw_tags := None; kw_linked_to := None;
     kw_linked_from := None; kw_created_after := None;
     kw_created_before := None; kw_updated_after := None;
     kw_updated_before := None |}.

Definition only_tags (names : list string) : criteria :=
  {| kw_content := None; kw_title := None; kw_note_type := None;
     kw_tag := None; kw_tags := Some (TagSeq names); kw_linked_to := None;
     kw_linked_from := None; kw_created_after := None;
     kw_created_before := None; kw_updated_after := None;
     kw_updated_before := None |}.

Definition created_between (lo hi : option Z) : criteria :=
  {| kw_content := None; kw_title := None; kw_note_type := None;
     kw_tag := None; kw_tags := None; kw_linked_to := None;
     kw_linked_from := None; kw_created_after := lo;
     kw_created_before := hi; kw_updated_after := None;
     kw_updated_before := None |}.

Definition updated_between (lo hi : option Z) : criteria :=
  {| kw_content := None; kw_title := None; kw_note_type := None;
     kw_tag := None; kw_tags := None; kw_linked_to := None;
     kw_linked_from := None; kw_created_after := None;
     kw_created_before := None; kw_updated_after := lo;
     kw_updated_before := hi |}.

(** The inclusive range test, as a boolean. *)
Definition within_b (lo hi : option Z) (t : Z) : bool :=
  match lo with Some s => (s <=? t)%Z | None => true end
  && match hi with Some e => (t <=? e)%Z | None => true end.

(** The pattern that matches the characters of [s] literally. *)
Definition literal (s : string) : list Re.atom :=
  map Re.Lit (String.list_ascii_of_string s).

(** The pattern holds no special character other than the dot. *)
Definition dotted (s : string) : Prop :=
  Forall (fun ch => ch = "."%char ∨ Re.is_special ch = false)
         (String.list_ascii_of_string s).

(** The pattern of a text whose only special character is the dot. *)
Definition pattern_atoms (s : string) : list Re.atom :=
  map (fun ch => if Ascii.eqb ch "." then Re.AnyChar else Re.Lit ch)
      (String.list_ascii_of_string s).

(** What an atom of a pattern accepts. *)
Definition atom_fits (a : Re.atom) (c : ascii) : Prop :=
  match a with
  | Re.Lit x => same_ignoring_case x c
  | Re.AnyChar => code c ≠ 10%nat
  end.

(** The criterion [{"$in": list(tags)}]. *)
Definition in_names (names : list string) : value :=
  VDict {[ "$in" := VList (map VStr names) ]}.

(** The body of the loop over the outgoing links in [find_linked_notes]. *)
Definition collect_target (now : Z) (c : collection)
    (results : list (string * Note)) (link : Link) : result (list (string * Note)) :=
  target ← get now (target_id link) c;
  match target with
  | Some target => mret (dict_set (note_id target) target results)
  | None => mret results
  end.

(** The results gathered so far by that loop: keyed by id, without
    repeated key, and made of stored notes. *)
Definition gathered (stored : list Note) (rs : list (string * Note)) : Prop :=
  NoDup (map fst rs) ∧ ∀ k v, (k, v) ∈ rs → k = note_id v ∧ v ∈ stored.

(** ** Sample notes and collections *)

Definition sample_note (i ti co : string) (tg : list string) (lk : list Link)
    (t : Z) : Note :=
  {| note_id := i; title := ti; content := co; note_type := PERMANENT;
     tags := map (fun s => {| name := s |}) tg; links := lk;
     created_at := t; updated_at := t; metadata := ∅ |}.

Definition reference (s t : string) : Link :=
  {| source_id := s; target_id := t; link_type := REFERENCE;
     description := None; link_created_at := 5 |}.

Definition alpha : Note := sample_note "a" "Alpha" "first note" ["x"] [] 10.

Definition bravo : Note :=
  sample_note "b" "Bravo" "second note" ["x"; "y"]
              [reference "b" "a"; reference "b" "zz"] 20.

(** A second note titled like [alpha], under an id of its own. *)
Definition alpha_again : Note := sample_note "c" "Alpha" "another" [] [] 30.

(** A note that holds the same link twice. *)
Definition twice : Note :=
  sample_note "d" "Delta" "" [] [reference "d" "a"; reference "d" "a"] 40.

Definition one_note : collection := run (Create "g" alpha) [].

Definition two_notes : collection := run (Create "g" bravo) one_note.

Definition with_twice : collection := run (Create "g" twice) one_note.

(** The notes of [tests/test_mongo_repository.py]. *)
Definition python_note : Note :=
  sample_note "py" "Python" "Python is great" ["python"; "lang"] [] 1.

Definition javascript_note : Note :=
  sample_note "js" "JavaScript" "JS for web" ["javascript"; "lang"] [] 2.

Definition languages : collection :=
  run (Create "g" javascript_note) (run (Create "g" python_note) []).

Definition target_note : Note := sample_note "tgt" "Target" "links in" ["tgt"] [] 4.

Definition source_note : Note := sample_note "src" "Source" "links out" ["src"] [] 3.

Definition source_linked : Note :=
  sample_note "src" "Source" "links out" ["src"] [reference "src" "tgt"] 3.

Definition linked : collection :=
  run (Update 9 source_linked)
      (run (Create "g" target_note) (run (Create "g" source_note) [])).

Definition ids_of (r : result (list Note)) : result (list string) :=
  map note_id <$> r.

(** ** More calls of [search] *)

(** [search(note_type=t)], [t] a [NoteType] member or text. *)
Definition only_note_type (t : NoteType + string) : criteria :=
  {| kw_content := None; kw_title := None; kw_note_type := Some t;
     kw_tag := None; kw_tags := None; kw_linked_to := None;
     kw_linked_from := None; kw_created_after := None;
     kw_created_before := None; kw_updated_after := None;
     kw_updated_before := None |}.

(** [search(tag=.., tags=..)], each keyword passed only when given. *)
Definition tag_criteria (tag : option string) (tags : option tags_arg) : criteria :=
  {| kw_content := None; kw_title := None; kw_note_type := None;
     kw_tag := tag; kw_tags := tags; kw_linked_to := None;
     kw_linked_from := None; kw_created_after := None;
     kw_created_before := None; kw_updated_after := None;
     kw_updated_before := None |}.

(** [search(linked_to=.., linked_from=..)], each keyword passed only when
    given. *)
Definition link_criteria (linked_to linked_from : option string) : criteria :=
  {| kw_content := None; kw_title := None; kw_note_type := None;
     kw_tag := None; kw_tags := None; kw_linked_to := linked_to;
     kw_linked_from := linked_from; kw_created_after := None;
     kw_created_before := None; kw_updated_after := None;
     kw_updated_before := None |}.

(** The note holds a link to [i]. *)
Definition links_to (i : string) (n : Note) : Prop :=
  ∃ l, l ∈ links n ∧ target_id l = i.

#[global] Instance has_tag_dec (n : Note) (t : string) : Decision (has_tag n t).
Proof. unfold has_tag. apply _. Defined.

(** The entry a search query holds for a date field, given the bounds
    passed for it. *)
Definition range_entry (lo hi : option Z) : option value :=
  match lo, hi with
  | None, None => None
  | Some s, None => Some (VDict {[ "$gte" := VDate s ]})
  | None, Some e => Some (VDict {[ "$lte" := VDate e ]})
  | Some s, Some e => Some (VDict {[ "$lte" := VDate e; "$gte" := VDate s ]})
  end.

(** The body of the loop over the incoming documents in
    [find_linked_notes]. *)
Definition collect_source (now : Z) (i : string)
    (results : list (string * Note)) (doc : gmap string value)
  : result (list (string * Note)) :=
  if value_eqb (dict_get doc "id") (VStr i) then mret results
  else
    note ← _document_to_note now doc;
    mret (dict_set (note_id note) note results).

(** The directions [find_linked_notes] accepts. *)
Definition directions : list string := ["outgoing"; "incoming"; "both"].

(** ** [get_all_tags] and the aggregation it runs *)

(** The pipeline [[{"$unwind": "$tags"}, {"$group": {"_id": "$tags"}}]]. *)
Definition tags_pipeline : value :=
  VList [VDict {[ "$unwind" := VStr "$tags" ]};
         VDict {[ "$group" := VDict {[ "_id" := VStr "$tags" ]} ]}].

(** [tags.add(tag)]: lists and dictionaries cannot be hashed.  The
    language does not fix the order in which a set is iterated; the set is
    kept here in order of first insertion. *)
Definition set_add (tags : list value) (tag : value) : result (list value) :=
  match tag with
  | VList _ | VDict _ => Raise TypeError
  | _ => Ok (if existsb (value_eqb tag) tags then tags else (tags ++ [tag])%list)
  end.

(** [FakeCollection.aggregate]: the distinct tags of all documents for the
    pipeline above, nothing for any other pipeline. *)
Definition aggregate (pipeline : value) (docs : collection)
  : result (list (gmap string value)) :=
  if value_eqb pipeline tags_pipeline
  then
    tags ← for_each (fun tags doc =>
                       items ← py_iter (dict_get_or doc "tags" (VList []));
                       for_each set_add tags items) [] docs;
    mret (map (fun tag => ({[ "_id" := tag ]} : gmap string value)) tags)
  else mret [].

(** [doc["_id"]], for the names that are text; sorting and validating
    names of another kind is left outside the model. *)
Definition tag_name_of (doc : gmap string value) : result string :=
  match doc !! "_id" with
  | Some (VStr s) => Ok s
  | _ => Raise NotModelled
  end.

(** The order of [str]: lexicographic on character codes. *)
Definition str_le (a b : string) : Prop := String.leb a b = true.

#[global] Instance str_le_dec (a b : string) : Decision (str_le a b).
Proof. unfold str_le. apply _. Defined.

(** [sorted(names)] *)
Definition sorted (names : list string) : list string := merge_sort str_le names.

(** The part of [get_all_tags] that follows the aggregation. *)
Definition tags_of_groups (docs : list (gmap string value)) : result (list Tag) :=
  tag_names ← mapM tag_name_of docs;
  mret (map (fun s => {| name := s |}) (sorted tag_names)).

Definition get_all_tags (c : collection) : result (list Tag) :=
  docs ← aggregate tags_pipeline c;
  tags_of_groups docs.

(** ** Documents that lack fields *)

(** The document without the keys listed. *)
Definition without (absent : list string) (doc : gmap string value)
  : gmap string value :=
  foldr base.delete doc absent.

(** The note read from the document of [n] once the keys listed are
    gone: each missing field takes the default of [_document_to_note]. *)
Definition defaulted (now : Z) (absent : list string) (n : Note) : Note :=
  let gone k := bool_decide (k ∈ absent) in
  let i := if gone "id" then "None" else note_id n in
  {| note_id := i;
     title := if gone "title" then "" else title n;
     content := if gone "content" then "" else content n;
     note_type := if gone "note_type" then PERMANENT else note_type n;
     tags := if gone "tags" then [] else tags n;
     links := if gone "links" then [] else map (own_link i) (links n);
     created_at := if gone "created_at" then now else created_at n;
     updated_at := if gone "updated_at" then now else updated_at n;
     metadata := if gone "metadata" then ∅ else metadata n |}.

(** The keys of a note document. *)
Definition note_keys : gset string :=
  {[ "id"; "title"; "content"; "note_type"; "tags"; "links"; "created_at";
     "updated_at"; "metadata" ]}.

(** ** Conversion lemmas *)

Lemma NoteType_of_value (t : NoteType) :
  NoteType_of (VStr (NoteType_value t)) = Ok t.
Proof. by destruct t. Qed.

Lemma LinkType_of_value (t : LinkType) :
  LinkType_of (VStr (LinkType_value t)) = Ok t.
Proof. by destruct t. Qed.

Lemma as_opt_str_value (o : option string) :
  as_opt_str (opt_str_value o) = Ok o.
Proof. by destruct o. Qed.

Lemma mapM_Ok_map {A B C : Type} (f : B → result C) (h : A → B) (g : A → C)
    (l : list A) :
  (∀ x, x ∈ l → f (h x) = Ok (g x)) → mapM f (map h l) = Ok (map g l).
Proof.
  induction l as [|x l IH]; intros Hf; [done|].
  cbn. rewrite Hf by left. cbn.
  rewrite IH; [done|]. intros y Hy. apply Hf. by right.
Qed.

Lemma document_to_link_own (now : Z) (n : Note) (l : Link) :
  document_to_link now (_note_to_document n) (link_to_document l)
  = Ok (own_link (note_id n) l).
Proof.
  unfold document_to_link, link_to_document, _note_to_document, dict_get,
    dict_get_or.
  simplify_map_eq. cbn.
  rewrite LinkType_of_value. cbn.
  rewrite as_opt_str_value. done.
Qed.

Lemma _document_to_note_own (now : Z) (n : Note) :
  _document_to_note now (_note_to_document n) = Ok (own_links n).
Proof.
  unfold _document_to_note.
  assert (Htags : dict_get_or (_note_to_document n) "tags" (VList [])
                  = VList (map (fun tag => VStr (name tag)) (tags n))).
  { unfold dict_get_or, _note_to_document. by simplify_map_eq. }
  assert (Hlinks : dict_get_or (_note_to_document n) "links" (VList [])
                   = VList (map link_to_document (links n))).
  { unfold dict_get_or, _note_to_document. by simplify_map_eq. }
  rewrite Htags, Hlinks. cbn.
  rewrite (mapM_Ok_map _ (fun tag => VStr (name tag)) (fun t => t))
    by (by intros [] ?).
  cbn.
  rewrite (mapM_Ok_map _ link_to_document (own_link (note_id n)))
    by (intros; apply document_to_link_own).
  cbn.
  unfold dict_get, dict_get_or, _note_to_document. simplify_map_eq. cbn.
  rewrite NoteType_of_value. cbn.
  unfold own_links. by rewrite map_id.
Qed.

Lemma own_links_id (n : Note) :
  (∀ l, l ∈ links n → source_id l = note_id n) → own_links n = n.
Proof.
  intros H. destruct n as [i ti co nt tg lk ca ua md]. unfold own_links. cbn in *.
  f_equal. induction lk as [|l lk IH]; [done|].
  cbn. rewrite IH by (intros; apply H; by right).
  f_equal. destruct l as [s t lt d c]. unfold own_link. cbn.
  f_equal. symmetry. apply (H {| source_id := s; target_id := t; link_type := lt; description := d; link_created_at := c |}). by left.
Qed.

(** C10. Converting a note to a stored document and back gives the note
    itself, on every field (id, title, content, note type, tags, links,
    both timestamps and metadata), provided each of its links has the
    note's own id as source. *)
Theorem document_roundtrip (now : Z) (n : Note) :
  (∀ l, l ∈ links n → source_id l = note_id n) →
  _document_to_note now (_note_to_document n) = Ok n.
Proof.
  intros H. rewrite _document_to_note_own. by rewrite own_links_id.
Qed.

Lemma document_roundtrip_witness :
  (∀ l, l ∈ links bravo → source_id l = note_id bravo)
  ∧ _document_to_note 0 (_note_to_document bravo) = Ok bravo.
Proof.
  assert (H : ∀ l, l ∈ links bravo → source_id l = note_id bravo).
  { intros l Hl. cbn in Hl.
    apply elem_of_cons in Hl as [->|Hl]; [reflexivity|].
    apply list_elem_of_singleton in Hl. subst l. reflexivity. }
  split; [exact H|].
  exact (document_roundtrip 0 bravo H).
Defined.

(** ** Documents of notes against filters *)

Ltac note_lookup := unfold _note_to_document; simplify_map_eq; done.

Lemma lookup_doc_id (n : Note) :
  _note_to_document n !! "id" = Some (VStr (note_id n)).
Proof. note_lookup. Qed.

Lemma dict_get_doc_id (n : Note) :
  dict_get (_note_to_document n) "id" = VStr (note_id n).
Proof. unfold dict_get. by rewrite lookup_doc_id. Qed.

Lemma truthy_doc (n : Note) : truthy (_note_to_document n) = true.
Proof.
  unfold truthy. apply negb_true_iff, Nat.eqb_neq.
  apply (map_size_ne_0_lookup_2 _ "id"). rewrite lookup_doc_id. eauto.
Qed.

Lemma dom_doc (n n' : Note) :
  dom (_note_to_document n) = dom (_note_to_document n').
Proof. unfold _note_to_document. by rewrite !dom_insert_L, !dom_singleton_L. Qed.

(** [$set] with the document of a note replaces a stored note document
    entirely. *)
Lemma apply_update_doc (n n' : Note) :
  apply_update {[ "$set" := VDict (_note_to_document n') ]} (_note_to_document n)
  = _note_to_document n'.
Proof.
  unfold apply_update. rewrite lookup_singleton_eq.
  apply map_eq. intros k.
  destruct (_note_to_document n' !! k) as [v|] eqn:Hk.
  - rewrite lookup_union_l'; eauto.
  - apply lookup_union_None. split; [done|].
    apply not_elem_of_dom. rewrite (dom_doc n n'). by apply not_elem_of_dom.
Qed.

Lemma member_Some (d : gmap string value) (k : string) (v : value) :
  d !! k = Some v → v ≠ VNone → member d k = [v].
Proof. intros Hk Hv. unfold member. rewrite Hk. by destruct v. Qed.

Lemma field_scalar (doc : gmap string value) (key : string) (v : value) :
  split_dot key = [key] → doc !! key = Some v → v ≠ VNone →
  (∀ l, v ≠ VList l) →
  _get_field_values doc key = [v].
Proof.
  intros Hs Hk Hn Hl. unfold _get_field_values. rewrite Hs.
  cbn [fold_left descend flat_map app]. rewrite (member_Some _ _ v) by done.
  destruct v; try done. by destruct (Hl l).
Qed.

Lemma field_id (n : Note) :
  _get_field_values (_note_to_document n) "id" = [VStr (note_id n)].
Proof. apply field_scalar; [done|note_lookup|done..]. Qed.

Lemma field_title (n : Note) :
  _get_field_values (_note_to_document n) "title" = [VStr (title n)].
Proof. apply field_scalar; [done|note_lookup|done..]. Qed.

Lemma field_content (n : Note) :
  _get_field_values (_note_to_document n) "content" = [VStr (content n)].
Proof. apply field_scalar; [done|note_lookup|done..]. Qed.

Lemma field_created_at (n : Note) :
  _get_field_values (_note_to_document n) "created_at" = [VDate (created_at n)].
Proof. apply field_scalar; [done|note_lookup|done..]. Qed.

Lemma field_updated_at (n : Note) :
  _get_field_values (_note_to_document n) "updated_at" = [VDate (updated_at n)].
Proof. apply field_scalar; [done|note_lookup|done..]. Qed.

Lemma field_tags (n : Note) :
  _get_field_values (_note_to_document n) "tags"
  = map (fun t => VStr (name t)) (tags n).
Proof.
  unfold _get_field_values. change (split_dot "tags") with ["tags"].
  cbn [fold_left descend flat_map app].
  rewrite (member_Some _ _ (VList (map (fun t => VStr (name t)) (tags n))))
    by (done || note_lookup).
  cbn. by rewrite app_nil_r.
Qed.

Lemma flat_map_map_single {A B C : Type} (f : B → list C) (g : A → B)
    (h : A → C) (l : list A) :
  (∀ x, f (g x) = [h x]) → flat_map f (map g l) = map h l.
Proof.
  intros Hf. induction l as [|x l IH]; [done|].
  cbn. by rewrite Hf, IH.
Qed.

Lemma member_link_target (l : Link) :
  match link_to_document l with
  | VDict d => member d "target_id"
  | other => [other]
  end = [VStr (target_id l)].
Proof. unfold link_to_document, member. by simplify_map_eq. Qed.

Lemma field_link_targets (n : Note) :
  _get_field_values (_note_to_document n) "links.target_id"
  = map (fun l => VStr (target_id l)) (links n).
Proof.
  unfold _get_field_values.
  change (split_dot "links.target_id") with ["links"; "target_id"].
  cbn [fold_left descend flat_map app].
  rewrite (member_Some _ _ (VList (map link_to_document (links n))))
    by (done || note_lookup).
  cbn [flat_map app]. rewrite !app_nil_r.
  rewrite (flat_map_map_single _ _ (fun l => VStr (target_id l)))
    by apply member_link_target.
  by apply flat_map_map_single.
Qed.

Lemma _match_singleton (doc : gmap string value) (key : string) (v : value) :
  _match doc {[ key := v ]} = clause doc key v.
Proof.
  unfold _match. apply eq_true_iff_eq.
  rewrite bool_decide_eq_true, map_Forall_singleton.
  by destruct (clause doc key v).
Qed.

Lemma supported_singleton (key : string) (v : value) :
  supported {[ key := v ]} = supported_clause key v.
Proof.
  unfold supported. apply eq_true_iff_eq.
  rewrite bool_decide_eq_true, map_Forall_singleton.
  by destruct (supported_clause key v).
Qed.

Lemma _match_empty (doc : gmap string value) : _match doc ∅ = true.
Proof. unfold _match. apply bool_decide_eq_true, map_Forall_empty. Qed.

Lemma supported_empty : supported ∅ = true.
Proof. unfold supported. apply bool_decide_eq_true, map_Forall_empty. Qed.

Lemma _match_by_id (n : Note) (i : string) :
  _match (_note_to_document n) (by_id i) = has_id i n.
Proof.
  unfold by_id. rewrite _match_singleton. unfold clause.
  rewrite field_id. cbn. apply orb_false_r.
Qed.

Lemma supported_by_id (i : string) : supported (by_id i) = true.
Proof. unfold by_id. by rewrite supported_singleton. Qed.

Lemma has_id_true (i : string) (n : Note) : has_id i n = true ↔ note_id n = i.
Proof. unfold has_id. apply String.eqb_eq. Qed.

Lemma has_id_false (i : string) (n : Note) : has_id i n = false ↔ note_id n ≠ i.
Proof. unfold has_id. apply String.eqb_neq. Qed.

(** ** Collections of note documents *)

Lemma filter_map_comm {A B : Type} (p : B → bool) (f : A → B) (l : list A) :
  List.filter p (map f l) = map f (List.filter (fun x => p (f x)) l).
Proof.
  induction l as [|x l IH]; [done|].
  cbn. destruct (p (f x)); cbn; by rewrite IH.
Qed.

Lemma find_docs (filt : gmap string value) (ns : list Note) :
  supported filt = true →
  find filt (map _note_to_document ns)
  = Ok (map _note_to_document
          (List.filter (fun n => _match (_note_to_document n) filt) ns)).
Proof. intros Hs. unfold find. by rewrite Hs, filter_map_comm. Qed.

Lemma decode_docs (now : Z) (ns : list Note) :
  mapM (_document_to_note now) (map _note_to_document ns) = Ok (map own_links ns).
Proof. apply mapM_Ok_map. intros n _. apply _document_to_note_own. Qed.

Lemma filter_true {A : Type} (l : list A) : List.filter (fun _ => true) l = l.
Proof. induction l as [|x l IH]; [done|]. cbn. by rewrite IH. Qed.

Lemma get_all_docs (now : Z) (ns : list Note) :
  get_all now (map _note_to_document ns) = Ok (map own_links ns).
Proof.
  unfold get_all. rewrite find_docs by apply supported_empty. cbn.
  rewrite (List.filter_ext _ (fun _ => true)) by (intros; apply _match_empty).
  rewrite filter_true. apply decode_docs.
Qed.

Lemma filter_by_id (i : string) (ns : list Note) :
  List.filter (fun n => _match (_note_to_document n) (by_id i)) ns
  = List.filter (has_id i) ns.
Proof. apply List.filter_ext. intros n. apply _match_by_id. Qed.

Lemma get_docs (now : Z) (i : string) (ns : list Note) :
  get now i (map _note_to_document ns)
  = Ok (own_links <$> head (List.filter (has_id i) ns)).
Proof.
  unfold get, find_one. rewrite find_docs by apply supported_by_id. cbn.
  rewrite filter_by_id.
  destruct (List.filter (has_id i) ns) as [|n l]; [done|].
  cbn. rewrite truthy_doc, _document_to_note_own. done.
Qed.

Lemma existsb_map {A B : Type} (p : B → bool) (f : A → B) (l : list A) :
  existsb p (map f l) = existsb (fun x => p (f x)) l.
Proof. induction l as [|x l IH]; [done|]. cbn. by rewrite IH. Qed.

Lemma existsb_ext {A : Type} (p q : A → bool) (l : list A) :
  (∀ x, p x = q x) → existsb p l = existsb q l.
Proof. intros H. induction l as [|x l IH]; [done|]. cbn. by rewrite H, IH. Qed.

Lemma insert_one_docs (n : Note) (ns : list Note) :
  insert_one (_note_to_document n) (map _note_to_document ns)
  = if existsb (has_id (note_id n)) ns
    then (Raise DuplicateKeyError, map _note_to_document ns)
    else (Ok (), map _note_to_document (ns ++ [n])%list).
Proof.
  unfold insert_one. rewrite existsb_map.
  rewrite (existsb_ext _ (has_id (note_id n)))
    by (intros n'; by rewrite !dict_get_doc_id).
  destruct (existsb _ ns); [done|]. by rewrite map_app.
Qed.

Lemma create_docs (gen : string) (entity : Note) (ns : list Note) :
  create gen entity (map _note_to_document ns)
  = if existsb (has_id (note_id (created gen entity))) ns
    then (Raise (IOError DuplicateKeyError), map _note_to_document ns)
    else (Ok (created gen entity),
          map _note_to_document (ns ++ [created gen entity])%list).
Proof.
  unfold create. fold (created gen entity). rewrite insert_one_docs.
  by destruct (existsb _ ns).
Qed.

Lemma filter_nil_existsb {A : Type} (p : A → bool) (l : list A) :
  Nat.eqb (length (List.filter p l)) 0 = negb (existsb p l).
Proof.
  induction l as [|x l IH]; [done|]. cbn. by destruct (p x).
Qed.

Lemma update_docs (now : Z) (entity : Note) (ns : list Note) :
  update now entity (map _note_to_document ns)
  = if existsb (has_id (note_id entity)) ns
    then (Ok (set_updated_at now entity),
          map _note_to_document (replaced (set_updated_at now entity) ns))
    else (Raise (not_exist (note_id entity)), map _note_to_document ns).
Proof.
  unfold update, update_one. rewrite supported_by_id.
  rewrite filter_map_comm, length_map, filter_by_id, filter_nil_existsb.
  change (note_id (set_updated_at now entity)) with (note_id entity).
  assert (Hmap : map (fun doc => if _match doc (by_id (note_id entity))
                          then apply_update
                                 {[ "$set" := VDict (_note_to_document (set_updated_at now entity)) ]} doc
                          else doc) (map _note_to_document ns)
          = map _note_to_document (replaced (set_updated_at now entity) ns)).
  { unfold replaced. rewrite !map_map. apply map_ext. intros n.
    rewrite _match_by_id.
    change (note_id (set_updated_at now entity)) with (note_id entity).
    destruct (has_id (note_id entity) n); [|done].
    apply apply_update_doc. }
  rewrite Hmap. destruct (existsb (has_id (note_id entity)) ns) eqn:He; [done|].
  cbn. f_equal. f_equal. unfold replaced.
  rewrite <- (map_id ns) at 2. apply map_ext_in. intros n Hn.
  change (note_id (set_updated_at now entity)) with (note_id entity).
  destruct (has_id (note_id entity) n) eqn:Hi; [|done].
  assert (existsb (has_id (note_id entity)) ns = true)
    by (apply existsb_exists; eauto).
  congruence.
Qed.

Lemma pop_first_map {A B : Type} (p : B → bool) (f : A → B) (l : list A) :
  pop_first p (map f l) = map f <$> pop_first (fun x => p (f x)) l.
Proof.
  induction l as [|x l IH]; [done|].
  cbn. destruct (p (f x)); [done|]. rewrite IH.
  by destruct (pop_first _ l).
Qed.

Lemma pop_first_ext {A : Type} (p q : A → bool) (l : list A) :
  (∀ x, p x = q x) → pop_first p l = pop_first q l.
Proof.
  intros H. induction l as [|x l IH]; [done|]. cbn. by rewrite H, IH.
Qed.

Lemma delete_docs (i : string) (ns : list Note) :
  delete i (map _note_to_document ns)
  = match pop_first (has_id i) ns with
    | Some ns' => (Ok (), map _note_to_document ns')
    | None => (Raise (not_exist i), map _note_to_document ns)
    end.
Proof.
  unfold delete, delete_one. rewrite supported_by_id, pop_first_map.
  rewrite (pop_first_ext _ (has_id i)) by (intros; apply _match_by_id).
  by destruct (pop_first (has_id i) ns).
Qed.

(** ** Identifiers in a list of notes *)

Lemma existsb_has_id (i : string) (ns : list Note) :
  existsb (has_id i) ns = true ↔ i ∈ map note_id ns.
Proof.
  rewrite existsb_exists, list_elem_of_fmap. split.
  - intros [n [Hn Hi]]. exists n. split; [symmetry; by apply has_id_true|].
    by apply list_elem_of_In.
  - intros [n [-> Hn]]. exists n. split; [by apply list_elem_of_In|].
    by apply has_id_true.
Qed.

Lemma existsb_has_id_false (i : string) (ns : list Note) :
  existsb (has_id i) ns = false ↔ i ∉ map note_id ns.
Proof.
  rewrite <- existsb_has_id. by destruct (existsb (has_id i) ns).
Qed.

Lemma ids_replaced (note : Note) (ns : list Note) :
  map note_id (replaced note ns) = map note_id ns.
Proof.
  unfold replaced. rewrite map_map. apply map_ext. intros n.
  destruct (has_id (note_id note) n) eqn:Hi; [|done].
  symmetry. by apply has_id_true.
Qed.

Lemma pop_first_None (i : string) (ns : list Note) :
  pop_first (has_id i) ns = None ↔ i ∉ map note_id ns.
Proof.
  rewrite <- existsb_has_id_false.
  induction ns as [|n ns IH]; [done|].
  cbn. destruct (has_id i n); [done|]. cbn.
  rewrite <- IH. by destruct (pop_first (has_id i) ns).
Qed.

(** With distinct ids, dropping the first note that carries [i] drops
    every note that carries it. *)
Lemma pop_first_NoDup (i : string) (ns ns' : list Note) :
  NoDup (map note_id ns) → pop_first (has_id i) ns = Some ns' →
  ns' = List.filter (fun n => negb (has_id i n)) ns.
Proof.
  revert ns'. induction ns as [|n ns IH]; intros ns' Hnd Hp; [done|].
  cbn in Hp, Hnd. apply NoDup_cons in Hnd as [Hn Hnd]. cbn.
  destruct (has_id i n) eqn:Hi; cbn.
  - injection Hp as <-. apply has_id_true in Hi. subst i.
    symmetry. rewrite <- (filter_true ns) at 2. apply List.filter_ext_in.
    intros m Hm. apply negb_true_iff, has_id_false. intros E.
    apply Hn. rewrite <- E. apply list_elem_of_fmap. exists m.
    split; [done|]. by apply list_elem_of_In.
  - destruct (pop_first (has_id i) ns) as [l|]; [|done].
    injection Hp as <-. f_equal. by apply IH.
Qed.

Lemma NoDup_ids_filter (p : Note → bool) (ns : list Note) :
  NoDup (map note_id ns) → NoDup (map note_id (List.filter p ns)).
Proof.
  induction ns as [|n ns IH]; [done|].
  cbn. rewrite NoDup_cons. intros [Hn Hnd].
  destruct (p n); cbn; [|by apply IH].
  apply NoDup_cons. split; [|by apply IH].
  intros Hin. apply Hn. apply list_elem_of_fmap in Hin as [m [E Hm]].
  apply list_elem_of_fmap. exists m. split; [done|].
  apply list_elem_of_In. apply list_elem_of_In, filter_In in Hm. tauto.
Qed.

(** ** The invariant holds in every reachable state *)

Lemma stores_run (o : operation) (c : collection) (ns : list Note) :
  stores c ns → ∃ ns', stores (run o c) ns'.
Proof.
  intros [-> Hnd]. destruct o as [gen entity|now entity|i|]; cbn.
  - rewrite create_docs.
    destruct (existsb _ ns) eqn:He; cbn; [by exists ns|].
    exists (ns ++ [created gen entity])%list. split; [done|].
    rewrite map_app. apply NoDup_app. split; [done|]. split.
    + intros x Hx Hx'. apply list_elem_of_singleton in Hx'. subst x.
      by apply existsb_has_id_false in He.
    + apply NoDup_singleton.
  - rewrite update_docs.
    destruct (existsb _ ns); cbn; [|by exists ns].
    exists (replaced (set_updated_at now entity) ns). split; [done|].
    by rewrite ids_replaced.
  - rewrite delete_docs.
    destruct (pop_first (has_id i) ns) as [ns'|] eqn:Hp; cbn; [|by exists ns].
    exists ns'. split; [done|].
    rewrite (pop_first_NoDup i ns ns') by done. by apply NoDup_ids_filter.
  - by exists ns.
Qed.

Lemma reachable_stores (c : collection) :
  reachable c → ∃ ns, stores c ns.
Proof.
  induction 1 as [|o c _ [ns IH]].
  - exists []. split; [done|]. apply NoDup_nil_2.
  - by apply (stores_run o c ns).
Qed.

(** What [get_all] shows of a reachable collection determines it. *)
Lemma reachable_get_all (now : Z) (c : collection) (stored : list Note) :
  reachable c → get_all now c = Ok stored →
  ∃ ns, stores c ns ∧ stored = map own_links ns.
Proof.
  intros Hr Hg. destruct (reachable_stores c Hr) as [ns Hs].
  exists ns. split; [done|]. destruct Hs as [-> _].
  rewrite get_all_docs in Hg. by injection Hg.
Qed.

(** Every reachable collection can be listed. *)
Lemma reachable_listed (now : Z) (c : collection) :
  reachable c → ∃ stored, get_all now c = Ok stored.
Proof.
  intros Hr. destruct (reachable_stores c Hr) as [ns [-> _]].
  eexists. apply get_all_docs.
Qed.

(** ** What the reading operations show after a change *)

Lemma ids_own_links (ns : list Note) :
  map note_id (map own_links ns) = map note_id ns.
Proof. by rewrite map_map. Qed.

Lemma has_id_own_links (i : string) (n : Note) :
  has_id i (own_links n) = has_id i n.
Proof. done. Qed.

Lemma replaced_own_links (note : Note) (ns : list Note) :
  replaced (own_links note) (map own_links ns) = map own_links (replaced note ns).
Proof.
  unfold replaced. rewrite !map_map. apply map_ext. intros n.
  rewrite has_id_own_links. change (note_id (own_links note)) with (note_id note).
  by destruct (has_id (note_id note) n).
Qed.

Lemma filter_own_links (p : Note → bool) (ns : list Note) :
  (∀ n, p (own_links n) = p n) →
  List.filter p (map own_links ns) = map own_links (List.filter p ns).
Proof.
  intros Hp. rewrite filter_map_comm. f_equal. by apply List.filter_ext.
Qed.

Lemma head_replaced (note : Note) (ns : list Note) :
  existsb (has_id (note_id note)) ns = true →
  head (List.filter (has_id (note_id note)) (replaced note ns)) = Some note.
Proof.
  induction ns as [|n ns IH]; [done|].
  cbn. destruct (has_id (note_id note) n) eqn:Hi; cbn.
  - intros _. assert (has_id (note_id note) note = true) as ->
      by by apply has_id_true.
    done.
  - rewrite Hi. apply IH.
Qed.

(** ** C1: create *)

(** C1 (as amended). In a reachable repository, [create] is refused exactly
    when the id of the note (the generated one when the note has none) is
    already stored: it then raises [IOError] for the duplicate key and
    leaves the collection as it was.  Otherwise it returns the note and the
    stored notes are the former ones followed by that note.  The title
    plays no part. *)
Theorem create_conflict_on_id_only (now : Z) (gen : string) (entity : Note)
    (c : collection) (stored : list Note) :
  reachable c → get_all now c = Ok stored →
  (note_id (created gen entity) ∈ map note_id stored →
     create gen entity c = (Raise (IOError DuplicateKeyError), c))
  ∧ (note_id (created gen entity) ∉ map note_id stored →
     ∃ c', create gen entity c = (Ok (created gen entity), c')
           ∧ get_all now c' = Ok (stored ++ [own_links (created gen entity)])%list).
Proof.
  intros Hr Hg. destruct (reachable_get_all now c stored Hr Hg) as [ns [[-> Hnd] ->]].
  rewrite ids_own_links, create_docs. split; intros Hi.
  - apply existsb_has_id in Hi. by rewrite Hi.
  - apply existsb_has_id_false in Hi. rewrite Hi. eexists. split; [done|].
    by rewrite get_all_docs, map_app.
Qed.

Lemma create_conflict_on_id_only_witness :
  (reachable one_note ∧ get_all 0 one_note = Ok [alpha]) ∧
  (create "g" alpha one_note = (Raise (IOError DuplicateKeyError), one_note)) ∧
  (∃ c', create "g" bravo one_note = (Ok (created "g" bravo), c')
         ∧ get_all 0 c' = Ok ([alpha] ++ [own_links (created "g" bravo)])%list).
Proof.
  assert (Hr : reachable one_note) by apply reachable_run, reachable_empty.
  assert (Hg : get_all 0 one_note = Ok [alpha]) by (vm_compute; reflexivity).
  split; [by split|]. split.
  - apply (proj1 (create_conflict_on_id_only 0 "g" alpha one_note [alpha] Hr Hg)).
    left.
  - apply (proj2 (create_conflict_on_id_only 0 "g" bravo one_note [alpha] Hr Hg)).
    intros H. apply list_elem_of_singleton in H. discriminate H.
Defined.

(** C1 (counterexample). A note whose title is already stored, under an id
    that is not, is accepted and inserted. *)
Lemma create_accepts_stored_title :
  reachable one_note
  ∧ get_all 0 one_note = Ok [alpha]
  ∧ title alpha_again ∈ map title [alpha]
  ∧ fst (create "g" alpha_again one_note) = Ok alpha_again
  ∧ get_all 0 (snd (create "g" alpha_again one_note)) = Ok [alpha; alpha_again].
Proof.
  split; [apply reachable_run, reachable_empty|].
  split; [vm_compute; reflexivity|].
  split; [left|].
  split; vm_compute; reflexivity.
Qed.

(** ** C2: update *)

(** C2. In a reachable repository [update] raises exactly when no stored
    note has the id of the given note; the error is the [ValueError]
    "Note with ID ... does not exist" and the collection is left as it was.
    When the id is stored, [update] returns the given note with
    [updated_at] set to the clock reading and every other field as given;
    the note read back under that id has the fields of the given note,
    [updated_at] the clock reading, and its links attributed to the note
    itself; the other stored notes are as before. *)
Theorem update_not_found_iff (now t : Z) (entity : Note) (c : collection)
    (stored : list Note) :
  reachable c → get_all t c = Ok stored →
  let saved :=
    {| note_id := note_id entity; title := title entity;
       content := content entity; note_type := note_type entity;
       tags := tags entity; links := links entity;
       created_at := created_at entity; updated_at := now;
       metadata := metadata entity |} in
  let read :=
    {| note_id := note_id entity; title := title entity;
       content := content entity; note_type := note_type entity;
       tags := tags entity;
       links := map (own_link (note_id entity)) (links entity);
       created_at := created_at entity; updated_at := now;
       metadata := metadata entity |} in
  ((∃ e, fst (update now entity c) = Raise e) ↔ note_id entity ∉ map note_id stored)
  ∧ (note_id entity ∉ map note_id stored →
       update now entity c
       = (Raise (ValueError ("Note with ID " +:+ note_id entity +:+ " does not exist")),
          c))
  ∧ (note_id entity ∈ map note_id stored →
       ∃ c', update now entity c = (Ok saved, c')
             ∧ get t (note_id entity) c' = Ok (Some read)
             ∧ get_all t c' = Ok (replaced read stored)).
Proof.
  intros Hr Hg saved read.
  change saved with (set_updated_at now entity).
  change read with (own_links (set_updated_at now entity)).
  change (ValueError ("Note with ID " +:+ note_id entity +:+ " does not exist"))
    with (not_exist (note_id entity)).
  clear saved read.
  destruct (reachable_get_all t c stored Hr Hg) as [ns [[-> Hnd] ->]].
  rewrite ids_own_links, update_docs.
  destruct (existsb (has_id (note_id entity)) ns) eqn:He.
  - pose proof (proj1 (existsb_has_id _ _) He) as Hin.
    split; [|split]; [split| |].
    + by intros [e ?].
    + done.
    + done.
    + intros _. eexists. split; [done|].
      rewrite get_docs, get_all_docs, replaced_own_links.
      change (note_id entity) with (note_id (set_updated_at now entity)).
      by rewrite head_replaced.
  - pose proof (proj1 (existsb_has_id_false _ _) He) as Hin.
    split; [|split]; [split| |]; try done.
    intros _. by eexists.
Qed.

Lemma update_not_found_iff_witness :
  (reachable one_note ∧ get_all 0 one_note = Ok [alpha]
   ∧ (note_id bravo ∉ map note_id [alpha]) ∧ (note_id alpha ∈ map note_id [alpha])) ∧
  (update 77 bravo one_note
   = (Raise (ValueError "Note with ID b does not exist"), one_note)) ∧
  (∃ c', update 77 alpha one_note = (Ok (set_updated_at 77 alpha), c')
         ∧ updated_at (set_updated_at 77 alpha) = 77
         ∧ get 0 (note_id alpha) c' = Ok (Some (own_links (set_updated_at 77 alpha)))
         ∧ get_all 0 c' = Ok (replaced (own_links (set_updated_at 77 alpha)) [alpha])).
Proof.
  assert (Hr : reachable one_note) by apply reachable_run, reachable_empty.
  assert (Hg : get_all 0 one_note = Ok [alpha]) by (vm_compute; reflexivity).
  assert (Hb : note_id bravo ∉ map note_id [alpha]).
  { intros H. apply list_elem_of_singleton in H. discriminate H. }
  assert (Ha : note_id alpha ∈ map note_id [alpha]) by left.
  split; [exact (conj Hr (conj Hg (conj Hb Ha)))|]. split.
  - exact (proj1 (proj2 (update_not_found_iff 77 0 bravo one_note [alpha] Hr Hg)) Hb).
  - destruct (proj2 (proj2 (update_not_found_iff 77 0 alpha one_note [alpha] Hr Hg)) Ha)
      as [c' [Hu [Hget Hall]]].
    exists c'. exact (conj Hu (conj eq_refl (conj Hget Hall))).
Defined.

(** ** C3: delete *)

(** C3. In a reachable repository [delete] raises exactly when no stored
    note has the given id (the "does not exist" [ValueError], the
    collection left as it was); otherwise it succeeds and the stored notes
    are the former ones without the note of that id, in the same order. *)
Theorem delete_not_found_iff (t : Z) (i : string) (c : collection)
    (stored : list Note) :
  reachable c → get_all t c = Ok stored →
  ((∃ e, fst (delete i c) = Raise e) ↔ i ∉ map note_id stored)
  ∧ (i ∉ map note_id stored → delete i c = (Raise (not_exist i), c))
  ∧ (i ∈ map note_id stored →
       ∃ c', delete i c = (Ok (), c')
             ∧ get_all t c' = Ok (List.filter (fun n => negb (has_id i n)) stored)).
Proof.
  intros Hr Hg. destruct (reachable_get_all t c stored Hr Hg) as [ns [[-> Hnd] ->]].
  rewrite ids_own_links, delete_docs.
  destruct (pop_first (has_id i) ns) as [ns'|] eqn:Hp.
  - assert (Hin : i ∈ map note_id ns).
    { destruct (decide (i ∈ map note_id ns)) as [|Hn]; [done|].
      apply pop_first_None in Hn. congruence. }
    split; [|split]; [split| |]; try done.
    + by intros [e ?].
    + intros _. eexists. split; [done|].
      rewrite get_all_docs, (pop_first_NoDup i ns ns') by done.
      by rewrite filter_own_links.
  - pose proof (proj1 (pop_first_None _ _) Hp) as Hin.
    split; [|split]; [split| |]; try done.
    intros _. by eexists.
Qed.

Lemma delete_not_found_iff_witness :
  (reachable two_notes ∧ get_all 0 two_notes = Ok [alpha; bravo]) ∧
  (∃ c', delete "a" two_notes = (Ok (), c')
         ∧ get_all 0 c' = Ok (List.filter (fun n => negb (has_id "a" n)) [alpha; bravo])).
Proof.
  assert (Hr : reachable two_notes) by apply reachable_run, reachable_run, reachable_empty.
  assert (Hg : get_all 0 two_notes = Ok [alpha; bravo]) by (vm_compute; reflexivity).
  split; [by split|].
  apply (proj2 (proj2 (delete_not_found_iff 0 "a" two_notes [alpha; bravo] Hr Hg))).
  left.
Defined.

(** ** C4: uniqueness constraints of the store *)

(** C4 (as amended). The one uniqueness constraint of the store is on note
    ids: in every reachable repository no two stored notes share an id, and
    an attempt to insert a note under a stored id raises [IOError] and
    changes nothing.  Links are persisted as the note lists them: after an
    update the note read back holds one link per link of the given note,
    with the same target and type, repetitions included. *)
Theorem unique_ids_only (now : Z) (c : collection) (stored : list Note) :
  reachable c → get_all now c = Ok stored →
  NoDup (map note_id stored)
  ∧ (∀ gen entity,
       note_id (created gen entity) ∈ map note_id stored →
       create gen entity c = (Raise (IOError DuplicateKeyError), c))
  ∧ (∀ t entity,
       note_id entity ∈ map note_id stored →
       ∃ note, get now (note_id entity) (snd (update t entity c)) = Ok (Some note)
               ∧ link_triples [note]
                 = map (fun l => (note_id entity, target_id l, link_type l))
                       (links entity)).
Proof.
  intros Hr Hg.
  split; [|split].
  - destruct (reachable_get_all now c stored Hr Hg) as [ns [[-> Hnd] ->]].
    by rewrite ids_own_links.
  - intros gen entity Hin.
    destruct (reachable_get_all now c stored Hr Hg) as [ns [[-> Hnd] ->]].
    rewrite ids_own_links in Hin. apply existsb_has_id in Hin.
    by rewrite create_docs, Hin.
  - intros t entity Hin.
    destruct (reachable_get_all now c stored Hr Hg) as [ns [[-> Hnd] ->]].
    rewrite ids_own_links in Hin. apply existsb_has_id in Hin.
    rewrite update_docs, Hin. cbn [snd].
    eexists. rewrite get_docs.
    change (note_id entity) with (note_id (set_updated_at t entity)) at 1.
    rewrite head_replaced by done. split; [done|].
    unfold link_triples. cbn. by rewrite app_nil_r, map_map.
Qed.

Lemma unique_ids_only_witness :
  (reachable with_twice ∧ get_all 0 with_twice = Ok [alpha; twice]) ∧
  NoDup (map note_id [alpha; twice]).
Proof.
  assert (Hr : reachable with_twice) by apply reachable_run, reachable_run, reachable_empty.
  assert (Hg : get_all 0 with_twice = Ok [alpha; twice]) by (vm_compute; reflexivity).
  split; [by split|].
  exact (proj1 (unique_ids_only 0 with_twice [alpha; twice] Hr Hg)).
Defined.

(** C4 (counterexample). A note that lists the same link twice is stored
    as it is, by [create] and by [update] alike: a reachable repository
    holds two links with the same source, target and type. *)
Lemma duplicate_triple_persisted :
  reachable with_twice
  ∧ fst (create "g" twice one_note) = Ok twice
  ∧ fst (update 41 twice with_twice) = Ok (set_updated_at 41 twice)
  ∧ get_all 0 with_twice = Ok [alpha; twice]
  ∧ ¬ NoDup (link_triples [alpha; twice]).
Proof.
  split; [apply reachable_run, reachable_run, reachable_empty|].
  split; [vm_compute; reflexivity|].
  split; [vm_compute; reflexivity|].
  split; [vm_compute; reflexivity|].
  intros H. apply NoDup_cons in H as [H _]. apply H. left.
Qed.

(** ** C8: rebuild_index *)

(** C8. [rebuild_index] succeeds and leaves the collection as it is, so
    running it twice leaves the state that running it once leaves. *)
Theorem rebuild_index_idempotent (c : collection) :
  fst (rebuild_index c) = Ok ()
  ∧ snd (rebuild_index c) = c
  ∧ snd (rebuild_index (snd (rebuild_index c))) = snd (rebuild_index c).
Proof. done. Qed.

(** ** Searching a collection of note documents *)

Lemma search_docs (now : Z) (kwargs : criteria) (ns : list Note) :
  supported (search_query kwargs) = true →
  search now kwargs (map _note_to_document ns)
  = Ok (map own_links
          (List.filter (fun n => _match (_note_to_document n) (search_query kwargs)) ns)).
Proof.
  intros Hs. unfold search. rewrite find_docs by done. cbn. apply decode_docs.
Qed.

(** A search that answers, answers with the stored notes that match. *)
Lemma search_docs_inv (now : Z) (kwargs : criteria) (ns : list Note)
    (res : list Note) :
  search now kwargs (map _note_to_document ns) = Ok res →
  res = map own_links
          (List.filter (fun n => _match (_note_to_document n) (search_query kwargs)) ns).
Proof.
  intros H. destruct (supported (search_query kwargs)) eqn:Hs.
  - rewrite search_docs in H by done. by injection H.
  - unfold search, find in H. by rewrite Hs in H.
Qed.

Lemma elem_of_own_links_filter (p : Note → bool) (ns : list Note) (m : Note) :
  m ∈ map own_links (List.filter p ns) ↔ ∃ n, m = own_links n ∧ n ∈ ns ∧ p n = true.
Proof.
  rewrite list_elem_of_fmap. split; intros [n [-> H]]; exists n; split; try done.
  - apply list_elem_of_In, filter_In in H as [H ?]. by apply list_elem_of_In in H.
  - destruct H. apply list_elem_of_In, filter_In. split; [|done].
    by apply list_elem_of_In.
Qed.

(** *** Date ranges *)

Lemma within_b_spec (lo hi : option Z) (t : Z) :
  within_b lo hi t = true ↔ within lo hi t.
Proof.
  unfold within_b, within. rewrite andb_true_iff. split.
  - intros [Hlo Hhi]. split.
    + intros s ->. by apply Z.leb_le.
    + intros e ->. by apply Z.leb_le.
  - intros [Hlo Hhi]. split.
    + destruct lo as [s|]; [|done]. by apply Z.leb_le, Hlo.
    + destruct hi as [e|]; [|done]. by apply Z.leb_le, Hhi.
Qed.

Lemma range_query (key : string) (lo hi : option Z) :
  when hi (fun t => set_op key "$lte" (VDate t))
    (when lo (fun t => <[key := VDict {[ "$gte" := VDate t ]}]>) ∅)
  = match lo, hi with
    | None, None => ∅
    | Some s, None => {[ key := VDict {[ "$gte" := VDate s ]} ]}
    | None, Some e => {[ key := VDict {[ "$lte" := VDate e ]} ]}
    | Some s, Some e =>
        {[ key := VDict {[ "$lte" := VDate e; "$gte" := VDate s ]} ]}
    end.
Proof.
  destruct lo as [s|], hi as [e|]; cbn; try done.
  unfold set_op, dict_get_or. rewrite lookup_insert_eq. cbn.
  by rewrite insert_insert_eq.
Qed.

Lemma ops_match_range (lo hi : option Z) (t : Z) :
  match lo, hi with
  | None, None => true
  | Some s, None => ops_match [VDate t] {[ "$gte" := VDate s ]}
  | None, Some e => ops_match [VDate t] {[ "$lte" := VDate e ]}
  | Some s, Some e => ops_match [VDate t] {[ "$lte" := VDate e; "$gte" := VDate s ]}
  end = within_b lo hi t.
Proof.
  unfold within_b, ops_match.
  destruct lo as [s|], hi as [e|]; simplify_map_eq; cbn;
    rewrite ?orb_false_r; done.
Qed.

Lemma supported_range (key : string) (lo hi : option Z) :
  String.eqb key "$or" = false →
  supported (match lo, hi with
             | None, None => ∅
             | Some s, None => {[ key := VDict {[ "$gte" := VDate s ]} ]}
             | None, Some e => {[ key := VDict {[ "$lte" := VDate e ]} ]}
             | Some s, Some e =>
                 {[ key := VDict {[ "$lte" := VDate e; "$gte" := VDate s ]} ]}
             end) = true.
Proof.
  intros Hk.
  destruct lo as [s|], hi as [e|]; rewrite ?supported_singleton;
    try apply supported_empty;
    unfold supported_clause, supported_ops, dict_get_or; rewrite Hk;
    by simplify_map_eq.
Qed.

Lemma _match_range (doc : gmap string value) (key : string) (lo hi : option Z)
    (t : Z) :
  _get_field_values doc key = [VDate t] →
  _match doc (match lo, hi with
              | None, None => ∅
              | Some s, None => {[ key := VDict {[ "$gte" := VDate s ]} ]}
              | None, Some e => {[ key := VDict {[ "$lte" := VDate e ]} ]}
              | Some s, Some e =>
                  {[ key := VDict {[ "$lte" := VDate e; "$gte" := VDate s ]} ]}
              end) = within_b lo hi t.
Proof.
  intros Hv. rewrite <- ops_match_range.
  destruct lo as [s|], hi as [e|]; rewrite ?_match_singleton;
    try apply _match_empty; unfold clause; by rewrite Hv.
Qed.

Lemma search_created_between (now : Z) (lo hi : option Z) (ns : list Note) :
  search now (created_between lo hi) (map _note_to_document ns)
  = Ok (map own_links (List.filter (fun n => within_b lo hi (created_at n)) ns)).
Proof.
  assert (Hq : search_query (created_between lo hi)
               = when hi (fun t => set_op "created_at" "$lte" (VDate t))
                   (when lo (fun t => <["created_at" := VDict {[ "$gte" := VDate t ]}]>) ∅))
    by done.
  rewrite search_docs; rewrite Hq, range_query.
  - do 2 f_equal. apply List.filter_ext. intros n.
    apply _match_range, field_created_at.
  - by apply supported_range.
Qed.

Lemma search_updated_between (now : Z) (lo hi : option Z) (ns : list Note) :
  search now (updated_between lo hi) (map _note_to_document ns)
  = Ok (map own_links (List.filter (fun n => within_b lo hi (updated_at n)) ns)).
Proof.
  assert (Hq : search_query (updated_between lo hi)
               = when hi (fun t => set_op "updated_at" "$lte" (VDate t))
                   (when lo (fun t => <["updated_at" := VDict {[ "$gte" := VDate t ]}]>) ∅))
    by done.
  rewrite search_docs; rewrite Hq, range_query.
  - do 2 f_equal. apply List.filter_ext. intros n.
    apply _match_range, field_updated_at.
  - by apply supported_range.
Qed.

(** C7. Searching a reachable repository by creation date (respectively
    by modification date) answers with exactly the stored notes whose
    date lies between the bounds that were given, both ends included: a
    note dated exactly at the start bound or exactly at the end bound is
    returned when it also meets the other bound, and a bound that is not
    given excludes nothing. *)
Theorem date_range_inclusive (now : Z) (lo hi : option Z) (c : collection)
    (stored : list Note) :
  reachable c → get_all now c = Ok stored →
  (∃ res, search now (created_between lo hi) c = Ok res
          ∧ ∀ n, n ∈ res ↔ n ∈ stored ∧ within lo hi (created_at n))
  ∧ (∃ res, search now (updated_between lo hi) c = Ok res
            ∧ ∀ n, n ∈ res ↔ n ∈ stored ∧ within lo hi (updated_at n))
  ∧ (∀ n s e, n ∈ stored → (s ≤ e)%Z →
       created_at n = s ∨ created_at n = e →
       ∃ res, search now (created_between (Some s) (Some e)) c = Ok res ∧ n ∈ res)
  ∧ (∀ n s e, n ∈ stored → (s ≤ e)%Z →
       updated_at n = s ∨ updated_at n = e →
       ∃ res, search now (updated_between (Some s) (Some e)) c = Ok res ∧ n ∈ res).
Proof.
  intros Hr Hg. destruct (reachable_get_all now c stored Hr Hg) as [ns [[-> Hnd] ->]].
  assert (Hc : ∀ lo hi n,
    n ∈ map own_links (List.filter (fun n => within_b lo hi (created_at n)) ns)
    ↔ n ∈ map own_links ns ∧ within lo hi (created_at n)).
  { intros lo' hi' n. rewrite elem_of_own_links_filter, list_elem_of_fmap.
    split.
    - intros [m [-> [Hm Hw]]]. split; [by exists m|]. by apply within_b_spec.
    - intros [[m [-> Hm]] Hw]. exists m. split; [done|]. split; [done|].
      by apply within_b_spec. }
  assert (Hu : ∀ lo hi n,
    n ∈ map own_links (List.filter (fun n => within_b lo hi (updated_at n)) ns)
    ↔ n ∈ map own_links ns ∧ within lo hi (updated_at n)).
  { intros lo' hi' n. rewrite elem_of_own_links_filter, list_elem_of_fmap.
    split.
    - intros [m [-> [Hm Hw]]]. split; [by exists m|]. by apply within_b_spec.
    - intros [[m [-> Hm]] Hw]. exists m. split; [done|]. split; [done|].
      by apply within_b_spec. }
  split; [|split; [|split]].
  - eexists. split; [apply search_created_between|]. apply Hc.
  - eexists. split; [apply search_updated_between|]. apply Hu.
  - intros n s e Hn Hse Hb. eexists. split; [apply search_created_between|].
    apply Hc. split; [done|]. split; intros ? [= <-]; lia.
  - intros n s e Hn Hse Hb. eexists. split; [apply search_updated_between|].
    apply Hu. split; [done|]. split; intros ? [= <-]; lia.
Qed.

(** *** Tags *)

Lemma when_insert_lookup_ne {A : Type} (arg : option A) (k k' : string)
    (g : A → value) (q : gmap string value) :
  k ≠ k' → when arg (fun a => <[k := g a]>) q !! k' = q !! k'.
Proof. intros Hk. destruct arg; cbn; [by rewrite lookup_insert_ne|done]. Qed.

Lemma set_op_lookup_ne (key op k' : string) (bound : value)
    (q : gmap string value) :
  key ≠ k' → set_op key op bound q !! k' = q !! k'.
Proof.
  intros Hk. unfold set_op. destruct (dict_get_or q key (VDict ∅)); try done.
  by rewrite lookup_insert_ne.
Qed.

Lemma when_set_op_lookup_ne (arg : option Z) (key op k' : string)
    (q : gmap string value) :
  key ≠ k' → when arg (fun t => set_op key op (VDate t)) q !! k' = q !! k'.
Proof. intros Hk. destruct arg; cbn; [by apply set_op_lookup_ne|done]. Qed.

Lemma search_query_tags (kwargs : criteria) (names : list string) :
  kw_tags kwargs = Some (TagSeq names) →
  search_query kwargs !! "tags" = Some (in_names names).
Proof.
  intros Ht. unfold search_query. cbv zeta.
  rewrite !when_set_op_lookup_ne by done.
  rewrite (when_insert_lookup_ne (kw_updated_after kwargs)) by done.
  rewrite !when_set_op_lookup_ne by done.
  rewrite (when_insert_lookup_ne (kw_created_after kwargs)) by done.
  rewrite (when_insert_lookup_ne (kw_linked_from kwargs)) by done.
  rewrite (when_insert_lookup_ne (kw_linked_to kwargs)) by done.
  rewrite Ht. cbn. by rewrite lookup_insert_eq.
Qed.

Lemma ops_match_in (values : list value) (names : list string) :
  ops_match values {[ "$in" := VList (map VStr names) ]}
  = existsb (fun v => existsb (value_eqb v) (map VStr names)) values.
Proof. unfold ops_match. simplify_map_eq. by rewrite !andb_true_r. Qed.

Lemma clause_tags_in (n : Note) (names : list string) :
  clause (_note_to_document n) "tags" (in_names names) = true
  ↔ ∃ t, t ∈ names ∧ has_tag n t.
Proof.
  unfold clause, in_names. rewrite field_tags, ops_match_in.
  rewrite existsb_exists. unfold has_tag. split.
  - intros [v [Hv He]]. apply in_map_iff in Hv as [tg [<- Htg]].
    apply existsb_exists in He as [w [Hw He]].
    apply in_map_iff in Hw as [t [<- Ht]]. cbn in He.
    apply String.eqb_eq in He. exists t. split; [by apply list_elem_of_In|].
    rewrite <- He. apply list_elem_of_fmap. exists tg.
    split; [done|]. by apply list_elem_of_In.
  - intros [t [Ht Hn]]. apply list_elem_of_fmap in Hn as [tg [-> Htg]].
    exists (VStr (name tg)). split.
    + apply in_map_iff. exists tg. split; [done|]. by apply list_elem_of_In.
    + apply existsb_exists. exists (VStr (name tg)). split.
      * apply in_map_iff. exists (name tg). split; [done|]. by apply list_elem_of_In.
      * cbn. apply String.eqb_refl.
Qed.

Lemma has_tag_own_links (n : Note) (t : string) :
  has_tag (own_links n) t ↔ has_tag n t.
Proof. done. Qed.

(** C5 (as amended). A search that is given a list of tags returns only
    notes that carry at least one of the requested tags, whatever the
    other criteria; when the tags are the only criterion, it returns
    exactly the stored notes that carry at least one of them. *)
Theorem tags_match_any (now : Z) (names : list string) (c : collection)
    (stored : list Note) :
  reachable c → get_all now c = Ok stored →
  (∀ kwargs res,
     kw_tags kwargs = Some (TagSeq names) → search now kwargs c = Ok res →
     ∀ n, n ∈ res → ∃ t, t ∈ names ∧ has_tag n t)
  ∧ (∃ res, search now (only_tags names) c = Ok res
            ∧ ∀ n, n ∈ res ↔ n ∈ stored ∧ ∃ t, t ∈ names ∧ has_tag n t).
Proof.
  intros Hr Hg. destruct (reachable_get_all now c stored Hr Hg) as [ns [[-> Hnd] ->]].
  split.
  - intros kwargs res Ht Hs n Hn.
    apply search_docs_inv in Hs. subst res.
    apply elem_of_own_links_filter in Hn as [m [-> [Hm Hp]]].
    apply clause_tags_in.
    unfold _match in Hp. apply bool_decide_eq_true in Hp.
    apply Is_true_true. apply (Hp "tags"). by apply search_query_tags.
  - assert (Hq : search_query (only_tags names) = {[ "tags" := in_names names ]})
      by done.
    eexists. split.
    + apply search_docs. rewrite Hq, supported_singleton. done.
    + intros n. rewrite elem_of_own_links_filter, list_elem_of_fmap. rewrite Hq.
      split.
      * intros [m [-> [Hm Hp]]].
        rewrite _match_singleton in Hp. apply clause_tags_in in Hp.
        split; [by exists m|done].
      * intros [[m [-> Hm]] Ht]. exists m. split; [done|]. split; [done|].
        rewrite _match_singleton. by apply clause_tags_in.
Qed.
(** *** Characters and case *)

Lemma code_inj (a b : ascii) : code a = code b → a = b.
Proof.
  unfold code. intros H.
  rewrite <- (ascii_nat_embedding a), <- (ascii_nat_embedding b).
  by rewrite H.
Qed.

Lemma code_lower (c : ascii) :
  code (Re.lower c)
  = if ((65 <=? code c) && (code c <=? 90))%nat then (code c + 32)%nat else code c.
Proof.
  unfold Re.lower, code.
  destruct ((65 <=? nat_of_ascii c) && (nat_of_ascii c <=? 90))%nat eqn:E; [|done].
  apply nat_ascii_embedding. apply andb_true_iff in E as [_ E].
  apply Nat.leb_le in E. lia.
Qed.

(** The case folding of the matcher identifies exactly the two cases of
    a letter. *)
Lemma lower_same (a b : ascii) :
  Ascii.eqb (Re.lower a) (Re.lower b) = true ↔ same_ignoring_case a b.
Proof.
  rewrite Ascii.eqb_eq. unfold same_ignoring_case. split.
  - intros H. apply (f_equal code) in H. rewrite !code_lower in H.
    destruct (Nat.leb_spec 65 (code a)), (Nat.leb_spec (code a) 90),
             (Nat.leb_spec 65 (code b)), (Nat.leb_spec (code b) 90);
      cbn [andb] in H;
      first [ left; apply code_inj; lia | right; left; lia | right; right; lia ].
  - intros [->|[[Ha Hb]|[Hb Ha]]]; [done| |];
      apply code_inj; rewrite !code_lower;
      destruct (Nat.leb_spec 65 (code a)), (Nat.leb_spec (code a) 90),
               (Nat.leb_spec 65 (code b)), (Nat.leb_spec (code b) 90);
      cbn [andb]; lia.
Qed.

Lemma atom_matches_fits (a : Re.atom) (c : ascii) :
  Re.atom_matches true a c = true ↔ atom_fits a c.
Proof.
  destruct a as [x|]; cbn [Re.atom_matches atom_fits].
  - apply lower_same.
  - rewrite negb_true_iff. unfold Re.newline. split.
    + intros H E. apply Ascii.eqb_neq in H. apply H, code_inj.
      rewrite E. reflexivity.
    + intros H. apply Ascii.eqb_neq. intros ->. apply H. reflexivity.
Qed.

(** *** What a pattern of the fragment finds *)

Lemma match_here_fits (r : list Re.atom) (text : string) :
  Re.match_here true r text = true
  ↔ ∃ mid rest, text = mid +:+ rest
                ∧ Forall2 atom_fits r (String.list_ascii_of_string mid).
Proof.
  revert text. induction r as [|a r IH]; intros text; cbn [Re.match_here].
  - split; [|done]. intros _. exists "", text. split; [done|constructor].
  - destruct text as [|d text].
    + split; [done|]. intros [mid [rest [Ht Hf]]].
      destruct mid; [inversion Hf|cbn in Ht; discriminate Ht].
    + rewrite andb_true_iff, atom_matches_fits, IH. split.
      * intros [Hc [mid [rest [-> Hf]]]]. exists (String d mid), rest.
        split; [done|]. cbn. by constructor.
      * intros [mid [rest [Ht Hf]]]. destruct mid as [|e mid]; [inversion Hf|].
        cbn in Ht, Hf. injection Ht as -> ->.
        apply Forall2_cons in Hf as [Hc Hf]. split; [done|]. by exists mid, rest.
Qed.

Lemma search_fits (r : list Re.atom) (text : string) :
  Re.search true r text = true
  ↔ ∃ before mid after, text = before +:+ mid +:+ after
                        ∧ Forall2 atom_fits r (String.list_ascii_of_string mid).
Proof.
  split.
  - induction text as [|d text IH]; cbn [Re.search].
    + rewrite orb_false_r. intros H.
      apply match_here_fits in H as [mid [rest [Ht Hf]]]. by exists "", mid, rest.
    + intros H. apply orb_true_iff in H as [H|H].
      * apply match_here_fits in H as [mid [rest [Ht Hf]]]. by exists "", mid, rest.
      * destruct (IH H) as [before [mid [after [-> Hf]]]].
        by exists (String d before), mid, after.
  - intros [before [mid [after [Ht Hf]]]]. revert text Ht.
    induction before as [|b before IH]; intros text Ht.
    + assert (Hm : Re.match_here true r text = true)
        by (apply match_here_fits; by exists mid, after).
      destruct text; cbn [Re.search]; by rewrite Hm.
    + destruct text as [|d text]; [done|].
      cbn in Ht. injection Ht as _ Ht.
      cbn [Re.search]. rewrite (IH text Ht). apply orb_true_r.
Qed.

Lemma Forall2_map_l {A B C : Type} (P : B → C → Prop) (f : A → B)
    (l : list A) (k : list C) :
  Forall2 P (map f l) k ↔ Forall2 (fun x => P (f x)) l k.
Proof.
  revert k. induction l as [|x l IH]; intros k; cbn [map].
  - split; intros H; inversion H; constructor.
  - split; intros H; inversion H; subst; constructor; try done; by apply IH.
Qed.

(** *** Patterns without special characters *)

Lemma compile_plain (s : string) :
  plain s → Re.compile s = Some (literal s).
Proof.
  unfold plain, literal. induction s as [|ch s IH]; [done|].
  cbn [String.list_ascii_of_string]. intros H.
  apply Forall_cons in H as [Hc Hs]. cbn [Re.compile map].
  assert (Hdot : Ascii.eqb ch "." = false).
  { unfold Re.is_special, Re.special in Hc.
    cbn [String.list_ascii_of_string existsb] in Hc.
    by apply orb_false_elim in Hc as [Hc _]. }
  by rewrite Hdot, Hc, IH.
Qed.

Lemma search_literal (s text : string) :
  Re.search true (literal s) text = true ↔ contains_ignoring_case s text.
Proof.
  rewrite search_fits. unfold contains_ignoring_case, literal.
  split; intros [before [mid [after [Ht Hf]]]]; exists before, mid, after;
    (split; [exact Ht|]).
  - exact (proj1 (Forall2_map_l atom_fits Re.Lit _ _) Hf).
  - exact (proj2 (Forall2_map_l atom_fits Re.Lit _ _) Hf).
Qed.

(** *** Patterns whose only special character is the dot *)

Lemma compile_dotted (s : string) :
  dotted s → Re.compile s = Some (pattern_atoms s).
Proof.
  unfold dotted, pattern_atoms. induction s as [|ch s IH]; [done|].
  cbn [String.list_ascii_of_string]. intros H.
  apply Forall_cons in H as [Hc Hs]. cbn [Re.compile map].
  rewrite (IH Hs). destruct (Ascii.eqb ch ".") eqn:Hdot; [done|].
  destruct Hc as [->|Hc]; [done|]. by rewrite Hc.
Qed.

Lemma search_pattern (s text : string) :
  Re.search true (pattern_atoms s) text = true ↔ contains_match s text.
Proof.
  rewrite search_fits. unfold contains_match, pattern_atoms.
  assert (Hfit : ∀ ch c,
            atom_fits (if Ascii.eqb ch "." then Re.AnyChar else Re.Lit ch) c
            ↔ fits ch c).
  { intros ch c. unfold fits. destruct (Ascii.eqb_spec ch ".") as [->|Hne];
      cbn [atom_fits]; tauto. }
  split; intros [before [mid [after [Ht Hf]]]]; exists before, mid, after;
    (split; [exact Ht|]).
  - apply (Forall2_map_l atom_fits
             (fun ch => if Ascii.eqb ch "." then Re.AnyChar else Re.Lit ch)) in Hf.
    eapply Forall2_impl; [exact Hf|]. intros ch c. apply Hfit.
  - apply (Forall2_map_l atom_fits
             (fun ch => if Ascii.eqb ch "." then Re.AnyChar else Re.Lit ch)).
    eapply Forall2_impl; [exact Hf|]. intros ch c. apply Hfit.
Qed.

(** *** The criterion on a text field *)

Lemma ops_match_compiled (s text : string) (atoms : list Re.atom) :
  Re.compile s = Some atoms →
  ops_match [VStr text] {[ "$regex" := VStr s; "$options" := VStr "i" ]}
  = Re.search true atoms text.
Proof.
  intros Hp. unfold ops_match, regex_flags, dict_get_or. simplify_map_eq.
  cbn. by rewrite orb_false_r, !andb_true_r.
Qed.

Lemma supported_compiled (key s : string) (atoms : list Re.atom) :
  String.eqb key "$or" = false → Re.compile s = Some atoms →
  supported {[ key := regex_i s ]} = true.
Proof.
  intros Hk Hp. rewrite supported_singleton.
  unfold supported_clause, regex_i, supported_ops, dict_get_or. rewrite Hk.
  simplify_map_eq. rewrite Hp. done.
Qed.

Lemma search_by_text (now : Z) (kwargs : criteria) (key s : string)
    (atoms : list Re.atom) (text_of : Note → string) (ns : list Note) :
  search_query kwargs = {[ key := regex_i s ]} →
  String.eqb key "$or" = false →
  Re.compile s = Some atoms →
  (∀ n, _get_field_values (_note_to_document n) key = [VStr (text_of n)]) →
  (∀ n, text_of (own_links n) = text_of n) →
  ∃ res, search now kwargs (map _note_to_document ns) = Ok res
         ∧ ∀ n, n ∈ res ↔ n ∈ map own_links ns
                          ∧ Re.search true atoms (text_of n) = true.
Proof.
  intros Hq Hk Hp Hfield Hown.
  eexists. split.
  { apply search_docs. rewrite Hq. exact (supported_compiled key s atoms Hk Hp). }
  intros n. rewrite elem_of_own_links_filter, list_elem_of_fmap, Hq. split.
  - intros [m [-> [Hm Hmatch]]].
    rewrite _match_singleton in Hmatch. unfold clause, regex_i in Hmatch.
    rewrite Hfield, (ops_match_compiled s _ atoms Hp) in Hmatch.
    split; [exists m; split; [reflexivity|exact Hm]|].
    rewrite Hown. exact Hmatch.
  - intros [[m [-> Hm]] Hmatch]. exists m. split; [reflexivity|].
    split; [exact Hm|].
    rewrite _match_singleton. unfold clause, regex_i.
    rewrite Hfield, (ops_match_compiled s _ atoms Hp).
    rewrite Hown in Hmatch. exact Hmatch.
Qed.

Lemma search_by_title (now : Z) (s : string) (atoms : list Re.atom)
    (ns : list Note) :
  Re.compile s = Some atoms →
  ∃ res, search now (only_title s) (map _note_to_document ns) = Ok res
         ∧ ∀ n, n ∈ res ↔ n ∈ map own_links ns
                          ∧ Re.search true atoms (title n) = true.
Proof.
  intros Hp.
  apply (search_by_text now (only_title s) "title" s atoms title ns);
    [reflexivity|reflexivity|exact Hp|apply field_title|reflexivity].
Qed.

Lemma search_by_content (now : Z) (s : string) (atoms : list Re.atom)
    (ns : list Note) :
  Re.compile s = Some atoms →
  ∃ res, search now (only_content s) (map _note_to_document ns) = Ok res
         ∧ ∀ n, n ∈ res ↔ n ∈ map own_links ns
                          ∧ Re.search true atoms (content n) = true.
Proof.
  intros Hp.
  apply (search_by_text now (only_content s) "content" s atoms content ns);
    [reflexivity|reflexivity|exact Hp|apply field_content|reflexivity].
Qed.

(** C6 (as amended). The texts are of the ASCII range, where the two cases
    of a letter are its capital and its small letter.  Over a reachable
    repository, a search by title (respectively by content) answers, and:
    - for a criterion string without special characters of the pattern
      language, the answer holds exactly the stored notes whose title
      (respectively content) contains the string, ignoring case;
    - for a criterion string whose only special character is the dot, the
      answer holds exactly the stored notes whose title (respectively
      content) has a part that the string matches character by character,
      a dot matching any character but the newline and any other character
      matching itself in either case. *)
Theorem plain_substring_search (now : Z) (s : string) (c : collection)
    (stored : list Note) :
  reachable c → get_all now c = Ok stored → ascii_text s → dotted s →
  (plain s →
     (∃ res, search now (only_title s) c = Ok res
             ∧ ∀ n, ascii_text (title n) →
                    (n ∈ res ↔ n ∈ stored ∧ contains_ignoring_case s (title n)))
     ∧ (∃ res, search now (only_content s) c = Ok res
               ∧ ∀ n, ascii_text (content n) →
                      (n ∈ res ↔ n ∈ stored ∧ contains_ignoring_case s (content n))))
  ∧ (∃ res, search now (only_title s) c = Ok res
            ∧ ∀ n, ascii_text (title n) →
                   (n ∈ res ↔ n ∈ stored ∧ contains_match s (title n)))
  ∧ (∃ res, search now (only_content s) c = Ok res
            ∧ ∀ n, ascii_text (content n) →
                   (n ∈ res ↔ n ∈ stored ∧ contains_match s (content n))).
Proof.
  intros Hr Hg _ Hd.
  destruct (reachable_get_all now c stored Hr Hg) as [ns [[-> Hnd] ->]].
  split; [intros Hp; split|split].
  - destruct (search_by_title now s _ ns (compile_plain s Hp)) as [res [Hs Hres]].
    exists res. split; [exact Hs|]. intros n _.
    rewrite Hres, search_literal. reflexivity.
  - destruct (search_by_content now s _ ns (compile_plain s Hp)) as [res [Hs Hres]].
    exists res. split; [exact Hs|]. intros n _.
    rewrite Hres, search_literal. reflexivity.
  - destruct (search_by_title now s _ ns (compile_dotted s Hd)) as [res [Hs Hres]].
    exists res. split; [exact Hs|]. intros n _.
    rewrite Hres, search_pattern. reflexivity.
  - destruct (search_by_content now s _ ns (compile_dotted s Hd)) as [res [Hs Hres]].
    exists res. split; [exact Hs|]. intros n _.
    rewrite Hres, search_pattern. reflexivity.
Qed.

Ltac ascii_range :=
  repeat (apply List.Forall_cons; [vm_compute; lia|]); apply List.Forall_nil.

Lemma ascii_aLPH : ascii_text "aLPH".
Proof. unfold ascii_text. cbn [String.list_ascii_of_string]. ascii_range. Qed.

Lemma plain_aLPH : plain "aLPH".
Proof. repeat constructor. Qed.

Lemma dotted_aLPH : dotted "aLPH".
Proof. repeat (constructor; [by right|]). constructor. Qed.

Lemma ascii_A_dot_p : ascii_text "A.p".
Proof. unfold ascii_text. cbn [String.list_ascii_of_string]. ascii_range. Qed.

Lemma dotted_A_dot_p : dotted "A.p".
Proof.
  constructor; [by right|]. constructor; [by left|].
  constructor; [by right|]. constructor.
Qed.

Lemma plain_substring_search_witness :
  (reachable two_notes ∧ get_all 0 two_notes = Ok [alpha; bravo]
   ∧ ascii_text "aLPH" ∧ dotted "aLPH" ∧ plain "aLPH"
   ∧ ascii_text "A.p" ∧ dotted "A.p"
   ∧ search 0 (only_title "aLPH") two_notes = Ok [alpha]
   ∧ search 0 (only_title "A.p") two_notes = Ok [alpha]) ∧
  (∃ res, search 0 (only_title "aLPH") two_notes = Ok res
          ∧ ∀ n, ascii_text (title n) →
                 (n ∈ res ↔ n ∈ [alpha; bravo]
                            ∧ contains_ignoring_case "aLPH" (title n)))
  ∧ (∃ res, search 0 (only_title "A.p") two_notes = Ok res
            ∧ ∀ n, ascii_text (title n) →
                   (n ∈ res ↔ n ∈ [alpha; bravo] ∧ contains_match "A.p" (title n))).
Proof.
  assert (Hr : reachable two_notes) by apply reachable_run, reachable_run, reachable_empty.
  assert (Hg : get_all 0 two_notes = Ok [alpha; bravo]) by (vm_compute; reflexivity).
  assert (H1 : search 0 (only_title "aLPH") two_notes = Ok [alpha])
    by (vm_compute; reflexivity).
  assert (H2 : search 0 (only_title "A.p") two_notes = Ok [alpha])
    by (vm_compute; reflexivity).
  split.
  { exact (conj Hr (conj Hg (conj ascii_aLPH (conj dotted_aLPH (conj plain_aLPH
             (conj ascii_A_dot_p (conj dotted_A_dot_p (conj H1 H2)))))))). }
  split.
  - exact (proj1 (proj1 (plain_substring_search 0 "aLPH" two_notes [alpha; bravo]
                           Hr Hg ascii_aLPH dotted_aLPH) plain_aLPH)).
  - exact (proj1 (proj2 (plain_substring_search 0 "A.p" two_notes [alpha; bravo]
                           Hr Hg ascii_A_dot_p dotted_A_dot_p))).
Defined.

(** C6 (counterexample). The criterion string is a pattern: [A.p] finds
    the note titled [Alpha], whose title does not contain the three
    characters [A.p] in any case.  Both texts are of the ASCII range. *)
Lemma title_criterion_is_a_pattern :
  reachable one_note
  ∧ get_all 0 one_note = Ok [alpha]
  ∧ ascii_text "A.p" ∧ ascii_text (title alpha)
  ∧ search 0 (only_title "A.p") one_note = Ok [alpha]
  ∧ ¬ contains_ignoring_case "A.p" (title alpha).
Proof.
  split; [apply reachable_run, reachable_empty|].
  split; [vm_compute; reflexivity|].
  split; [apply ascii_A_dot_p|].
  split; [unfold ascii_text; cbn; ascii_range|].
  split; [vm_compute; reflexivity|].
  intros H. apply search_literal in H. vm_compute in H. discriminate H.
Qed.

Lemma tags_match_any_witness :
  (reachable two_notes ∧ get_all 0 two_notes = Ok [alpha; bravo]) ∧
  (∃ res, search 0 (only_tags ["y"]) two_notes = Ok res
          ∧ ∀ n, n ∈ res ↔ n ∈ [alpha; bravo] ∧ ∃ t, t ∈ ["y"] ∧ has_tag n t).
Proof.
  assert (Hr : reachable two_notes) by apply reachable_run, reachable_run, reachable_empty.
  assert (Hg : get_all 0 two_notes = Ok [alpha; bravo]) by (vm_compute; reflexivity).
  split; [by split|].
  exact (proj2 (tags_match_any 0 ["y"] two_notes [alpha; bravo] Hr Hg)).
Defined.

(** C5 (counterexample). Asked for the tags [x] and [y], the search
    returns the note [alpha], which carries [x] but not [y]. *)
Lemma tags_search_returns_partial_match :
  reachable two_notes
  ∧ search 0 (only_tags ["x"; "y"]) two_notes = Ok [alpha; bravo]
  ∧ "y" ∈ ["x"; "y"]
  ∧ ¬ has_tag alpha "y".
Proof.
  split; [apply reachable_run, reachable_run, reachable_empty|].
  split; [vm_compute; reflexivity|].
  split; [right; left|].
  unfold has_tag. cbn. intros H. apply list_elem_of_singleton in H. discriminate H.
Qed.

Lemma date_range_inclusive_witness :
  (reachable two_notes ∧ get_all 0 two_notes = Ok [alpha; bravo]) ∧
  (∃ res, search 0 (created_between (Some 10) (Some 20)) two_notes = Ok res
          ∧ ∀ n, n ∈ res ↔ n ∈ [alpha; bravo] ∧ within (Some 10) (Some 20) (created_at n)).
Proof.
  assert (Hr : reachable two_notes) by apply reachable_run, reachable_run, reachable_empty.
  assert (Hg : get_all 0 two_notes = Ok [alpha; bravo]) by (vm_compute; reflexivity).
  split; [by split|].
  exact (proj1 (date_range_inclusive 0 (Some 10) (Some 20) two_notes [alpha; bravo] Hr Hg)).
Defined.

(** ** Linked notes *)

Lemma find_linked_notes_outgoing (now : Z) (i : string) (c : collection) :
  find_linked_notes now i "outgoing" c
  = (results ← (note ← get now i c;
                match note with
                | Some note => for_each (collect_target now c) [] (links note)
                | None => mret []
                end);
     mret (map snd results)).
Proof.
  unfold find_linked_notes. cbn.
  destruct (get now i c) as [[note|]|]; cbn; done.
Qed.

Lemma head_map {A B : Type} (f : A → B) (l : list A) :
  head (map f l) = f <$> head l.
Proof. by destruct l. Qed.

Lemma get_stored (now : Z) (i : string) (ns : list Note) :
  get now i (map _note_to_document ns)
  = Ok (head (List.filter (has_id i) (map own_links ns))).
Proof.
  rewrite get_docs, filter_own_links by done. by rewrite head_map.
Qed.

Section dictionaries.
Context {A : Type}.
Implicit Types (d : list (string * A)) (k : string) (v : A).

Lemma keys_dict_set k v d :
  map fst (dict_set k v d)
  = if bool_decide (k ∈ map fst d) then map fst d else (map fst d ++ [k])%list.
Proof.
  induction d as [|[k0 v0] d IH]; [done|].
  cbn. destruct (String.eqb k0 k) eqn:Hk.
  - apply String.eqb_eq in Hk. subst k0. cbn.
    rewrite bool_decide_eq_true_2; [done|left].
  - apply String.eqb_neq in Hk. cbn. rewrite IH.
    destruct (decide (k ∈ map fst d)) as [Hin|Hin].
    + rewrite !bool_decide_eq_true_2; [done|by right|done].
    + rewrite !bool_decide_eq_false_2; [done| |done].
      intros H. apply elem_of_cons in H as [H|H]; [by subst|done].
Qed.

Lemma NoDup_dict_set k v d :
  NoDup (map fst d) → NoDup (map fst (dict_set k v d)).
Proof.
  intros Hnd. rewrite keys_dict_set. case_bool_decide as Hin; [done|].
  apply NoDup_app. split; [done|]. split; [|apply NoDup_singleton].
  intros x Hx Hx'. apply list_elem_of_singleton in Hx'. by subst.
Qed.

Lemma elem_of_dict_set k v d k' v' :
  NoDup (map fst d) →
  (k', v') ∈ dict_set k v d ↔ (k' = k ∧ v' = v) ∨ (k' ≠ k ∧ (k', v') ∈ d).
Proof.
  induction d as [|[k0 v0] d IH]; intros Hnd.
  - cbn. rewrite list_elem_of_singleton. split.
    + intros [= -> ->]. by left.
    + intros [[-> ->]|[_ H]]; [done|]. by apply elem_of_nil in H.
  - cbn in Hnd. apply NoDup_cons in Hnd as [Hk0 Hnd].
    cbn. destruct (String.eqb k0 k) eqn:Hk.
    + apply String.eqb_eq in Hk. subst k0. rewrite !elem_of_cons. split.
      * intros [[= -> ->]|H]; [by left|]. right. split; [|by right].
        intros ->. apply Hk0. apply list_elem_of_fmap. by exists (k, v').
      * intros [[-> ->]|[Hne [[= ? ?]|H]]]; [by left|done|by right].
    + apply String.eqb_neq in Hk. rewrite !elem_of_cons, IH by done. split.
      * intros [[= -> ->]|[[-> ->]|[Hne H]]].
        -- right. split; [done|by left].
        -- by left.
        -- right. split; [done|by right].
      * intros [[-> ->]|[Hne [[= -> ->]|H]]].
        -- right. by left.
        -- by left.
        -- right. right. by split.
Qed.

End dictionaries.

Section outgoing.
Variables (now : Z) (ns : list Note).
Hypothesis distinct : NoDup (map note_id ns).

Local Abbreviation c := (map _note_to_document ns).
Local Abbreviation stored := (map own_links ns).

Lemma distinct_stored : NoDup (map note_id stored).
Proof using distinct. by rewrite ids_own_links. Qed.

Lemma same_id_same_note (m m' : Note) :
  m ∈ stored → m' ∈ stored → note_id m = note_id m' → m = m'.
Proof using distinct.
  pose proof distinct_stored as Hnd. revert Hnd.
  induction stored as [|x l IH]; intros Hnd Hm Hm' E;
    [by apply elem_of_nil in Hm|].
  cbn in Hnd. apply NoDup_cons in Hnd as [Hx Hnd].
  apply elem_of_cons in Hm as [->|Hm]; apply elem_of_cons in Hm' as [->|Hm'].
  - done.
  - destruct Hx. rewrite E. apply list_elem_of_fmap. by exists m'.
  - destruct Hx. rewrite <- E. apply list_elem_of_fmap. by exists m.
  - by apply IH.
Qed.

Lemma lookup_stored_Some (i : string) (m : Note) :
  head (List.filter (has_id i) stored) = Some m ↔ m ∈ stored ∧ note_id m = i.
Proof using distinct.
  split.
  - intros H. assert (Hin : In m (List.filter (has_id i) stored)).
    { destruct (List.filter (has_id i) stored) as [|x l]; [done|].
      injection H as ->. by left. }
    apply filter_In in Hin as [Hin Hi]. split; [by apply list_elem_of_In|].
    by apply has_id_true.
  - intros [Hm Hi].
    assert (Hin : In m (List.filter (has_id i) stored)).
    { apply filter_In. split; [by apply list_elem_of_In|]. by apply has_id_true. }
    destruct (List.filter (has_id i) stored) as [|x l] eqn:Hf; [done|].
    cbn. f_equal.
    assert (Hx : In x (List.filter (has_id i) stored)) by (rewrite Hf; by left).
    apply filter_In in Hx as [Hx Hxi]. apply has_id_true in Hxi.
    apply same_id_same_note; [by apply list_elem_of_In|done|congruence].
Qed.

Lemma lookup_stored_None (i : string) :
  head (List.filter (has_id i) stored) = None → ∀ m, m ∈ stored → note_id m ≠ i.
Proof using distinct.
  intros H m Hm Hi.
  assert (Hs : head (List.filter (has_id i) stored) = Some m)
    by by apply lookup_stored_Some.
  congruence.
Qed.

Lemma collect_target_step (rs : list (string * Note)) (l : Link) :
  gathered stored rs →
  ∃ rs', collect_target now c rs l = Ok rs'
         ∧ gathered stored rs'
         ∧ ∀ m, m ∈ map snd rs'
                ↔ m ∈ map snd rs ∨ (m ∈ stored ∧ note_id m = target_id l).
Proof using distinct.
  intros [Hnd Hrs]. unfold collect_target. rewrite get_stored. cbn.
  destruct (head (List.filter (has_id (target_id l)) stored)) as [t|] eqn:Ht.
  - apply lookup_stored_Some in Ht as [Ht Hi]. cbn.
    eexists. split; [done|]. split; [split|].
    + by apply NoDup_dict_set.
    + intros k v Hkv. apply elem_of_dict_set in Hkv as [[-> ->]|[_ Hkv]]; [done| |done].
      by apply Hrs.
    + intros m. split.
      * intros Hin. apply list_elem_of_fmap in Hin as [[k v] [-> Hkv]]. cbn.
        apply elem_of_dict_set in Hkv as [[-> ->]|[_ Hkv]]; [by right| |done].
        left. apply list_elem_of_fmap. by exists (k, v).
      * intros Hin. apply list_elem_of_fmap.
        destruct Hin as [Hin|[Hm Hmi]].
        -- apply list_elem_of_fmap in Hin as [[k v] [-> Hkv]]. cbn.
           destruct (decide (k = note_id t)) as [->|Hne].
           ++ exists (note_id t, t). split; [|apply elem_of_dict_set; [done|by left]].
              cbn. destruct (Hrs _ _ Hkv) as [E Hv].
              by apply same_id_same_note.
           ++ exists (k, v). split; [done|].
              apply elem_of_dict_set; [done|]. by right.
        -- exists (note_id t, t). split; [|apply elem_of_dict_set; [done|by left]].
           cbn. apply same_id_same_note; [done..|congruence].
  - cbn. eexists. split; [done|]. split; [by split|].
    intros m. split; [by left|]. intros [H|[Hm Hi]]; [done|].
    by destruct (lookup_stored_None _ Ht m Hm).
Qed.

Lemma collect_targets (ls : list Link) (rs : list (string * Note)) :
  gathered stored rs →
  ∃ rs', for_each (collect_target now c) rs ls = Ok rs'
         ∧ gathered stored rs'
         ∧ ∀ m, m ∈ map snd rs'
                ↔ m ∈ map snd rs
                  ∨ (m ∈ stored ∧ ∃ l, l ∈ ls ∧ target_id l = note_id m).
Proof using distinct.
  revert rs. induction ls as [|l ls IH]; intros rs Hrs.
  - exists rs. split; [done|]. split; [done|]. intros m. split; [by left|].
    intros [H|[_ [l [Hl _]]]]; [done|]. by apply elem_of_nil in Hl.
  - destruct (collect_target_step rs l Hrs) as [rs1 [E1 [Hrs1 Hm1]]].
    destruct (IH rs1 Hrs1) as [rs' [E' [Hrs' Hm']]].
    exists rs'. split; [by cbn; rewrite E1|]. split; [done|].
    intros m. rewrite Hm', Hm1. split.
    + intros [[H|[Hm Hi]]|[Hm [l' [Hl' Hi]]]].
      * by left.
      * right. split; [done|]. exists l. split; [by left|done].
      * right. split; [done|]. exists l'. split; [by right|done].
    + intros [H|[Hm [l' [Hl' Hi]]]]; [by left; left|].
      apply elem_of_cons in Hl' as [->|Hl'].
      * left. right. by split.
      * right. split; [done|]. by exists l'.
Qed.

Lemma gathered_NoDup (rs : list (string * Note)) :
  gathered stored rs → NoDup (map snd rs).
Proof.
  intros [Hnd Hrs]. apply (NoDup_fmap_1 note_id).
  replace (note_id <$> map snd rs) with (map fst rs); [done|].
  clear Hnd. induction rs as [|[k v] rs IH]; [done|].
  cbn. rewrite IH by (intros; apply Hrs; by right).
  f_equal. apply (Hrs k v). by left.
Qed.

Lemma outgoing_stored (i : string) :
  ∃ res, find_linked_notes now i "outgoing" c = Ok res
         ∧ NoDup res
         ∧ ∀ m, m ∈ res
                ↔ m ∈ stored
                  ∧ ∃ src l, src ∈ stored ∧ note_id src = i
                             ∧ l ∈ links src ∧ target_id l = note_id m.
Proof using distinct.
  rewrite find_linked_notes_outgoing, get_stored. cbn.
  destruct (head (List.filter (has_id i) stored)) as [src|] eqn:Hs.
  - apply lookup_stored_Some in Hs as [Hsrc Hi].
    assert (H0 : gathered stored []).
    { split; [apply NoDup_nil_2|]. intros k v H. by apply elem_of_nil in H. }
    destruct (collect_targets (links src) [] H0) as [rs [E [Hrs Hm]]].
    rewrite E. cbn. eexists. split; [done|].
    split; [by apply gathered_NoDup|].
    intros m. rewrite Hm. split.
    + intros [H|[Hin [l [Hl Ht]]]]; [by apply elem_of_nil in H|].
      split; [done|]. by exists src, l.
    + intros [Hin [src' [l [Hsrc' [Hi' [Hl Ht]]]]]]. right. split; [done|].
      exists l. split; [|done].
      by rewrite (same_id_same_note src src') by (done || congruence).
  - exists []. split; [done|]. split; [apply NoDup_nil_2|].
    intros m. split; [intros H; by apply elem_of_nil in H|].
    intros [_ [src [l [Hsrc [Hi _]]]]].
    by destruct (lookup_stored_None _ Hs src Hsrc).
Qed.

End outgoing.

(** C9. In a reachable repository, [find_linked_notes(id, "outgoing")]
    answers without error, each note of the answer occurs once in it, and
    the answer holds exactly the stored notes whose id is the target of
    some link of the stored note with the given id; a link whose target is
    not stored adds nothing. *)
Theorem outgoing_linked_notes (now : Z) (i : string) (c : collection)
    (stored : list Note) :
  reachable c → get_all now c = Ok stored →
  ∃ res, find_linked_notes now i "outgoing" c = Ok res
         ∧ NoDup res
         ∧ ∀ m, m ∈ res
                ↔ m ∈ stored
                  ∧ ∃ src l, src ∈ stored ∧ note_id src = i
                             ∧ l ∈ links src ∧ target_id l = note_id m.
Proof.
  intros Hr Hg.
  destruct (reachable_get_all now c stored Hr Hg) as [ns [[-> Hnd] ->]].
  by apply outgoing_stored.
Qed.

Lemma outgoing_linked_notes_witness :
  (reachable two_notes ∧ get_all 0 two_notes = Ok [alpha; bravo]) ∧
  (∃ res, find_linked_notes 0 "b" "outgoing" two_notes = Ok res
          ∧ NoDup res
          ∧ ∀ m, m ∈ res
                 ↔ m ∈ [alpha; bravo]
                   ∧ ∃ src l, src ∈ [alpha; bravo] ∧ note_id src = "b"
                              ∧ l ∈ links src ∧ target_id l = note_id m).
Proof.
  assert (Hr : reachable two_notes) by apply reachable_run, reachable_run, reachable_empty.
  assert (Hg : get_all 0 two_notes = Ok [alpha; bravo]) by (vm_compute; reflexivity).
  split; [by split|].
  exact (outgoing_linked_notes 0 "b" two_notes [alpha; bravo] Hr Hg).
Defined.

(** ** The repository tests, replayed *)

(** [test_mongo_repository_crud] *)
Example crud_create_get :
  fst (create "g" alpha []) = Ok alpha ∧ get 0 "a" one_note = Ok (Some alpha).
Proof. split; vm_compute; reflexivity. Qed.

Example crud_update_get :
  get 0 "a" (run (Update 7 (sample_note "a" "Updated" "first note" ["beta"] [] 10)) one_note)
  = Ok (Some (set_updated_at 7 (sample_note "a" "Updated" "first note" ["beta"] [] 10))).
Proof. vm_compute. reflexivity. Qed.

Example crud_delete_get : get 0 "a" (run (Delete "a") one_note) = Ok None.
Proof. vm_compute. reflexivity. Qed.

(** [test_mongo_repository_search_and_tags] *)
Example search_title_python :
  ids_of (search 0 (only_title "Python") languages) = Ok ["py"].
Proof. vm_compute. reflexivity. Qed.

Example search_content_web :
  ids_of (search 0 (only_content "web") languages) = Ok ["js"].
Proof. vm_compute. reflexivity. Qed.

Example find_by_tag_lang :
  ids_of (find_by_tag 0 (inr "lang") languages) = Ok ["py"; "js"].
Proof. vm_compute. reflexivity. Qed.

(** [test_mongo_repository_links] *)
Example links_outgoing :
  ids_of (find_linked_notes 0 "src" "outgoing" linked) = Ok ["tgt"].
Proof. vm_compute. reflexivity. Qed.

Example links_incoming :
  ids_of (find_linked_notes 0 "tgt" "incoming" linked) = Ok ["src"].
Proof. vm_compute. reflexivity. Qed.

Example links_both :
  ids_of (find_linked_notes 0 "tgt" "both" linked) = Ok ["src"].
Proof. vm_compute. reflexivity. Qed.

Example links_direction_checked :
  find_linked_notes 0 "tgt" "sideways" linked
  = Raise (ValueError "direction must be 'outgoing', 'incoming', or 'both'").
Proof. vm_compute. reflexivity. Qed.

(** A pattern outside the modelled fragment is not answered. *)
Example search_star_not_modelled :
  search 0 (only_title "Py*") languages = Raise NotModelled.
Proof. vm_compute. reflexivity. Qed.

(** * Further properties of the repository *)

(** ** Reading after writing *)

Lemma filter_has_id_fresh (i : string) (ns : list Note) :
  i ∉ map note_id ns → List.filter (has_id i) ns = [].
Proof.
  intros Hi. induction ns as [|n ns IH]; [done|].
  cbn in *. apply not_elem_of_cons in Hi as [Hn Hi].
  assert (has_id i n = false) as -> by (apply has_id_false; congruence).
  by apply IH.
Qed.

Lemma filter_has_id_other (i j : string) (n : Note) :
  note_id n = i → j ≠ i → has_id j n = false.
Proof. intros <- Hj. apply has_id_false. congruence. Qed.

Lemma pop_first_fresh_app (i : string) (ns : list Note) (n : Note) :
  i ∉ map note_id ns → note_id n = i →
  pop_first (has_id i) (ns ++ [n]) = Some ns.
Proof.
  intros Hi Hn. induction ns as [|m ns IH].
  - cbn. by rewrite (proj2 (has_id_true i n) Hn).
  - cbn in *. apply not_elem_of_cons in Hi as [Hm Hi].
    assert (has_id i m = false) as -> by (apply has_id_false; congruence).
    by rewrite IH.
Qed.

Lemma filter_filter_other (i j : string) (ns : list Note) :
  j ≠ i →
  List.filter (has_id j) (List.filter (fun n => negb (has_id i n)) ns)
  = List.filter (has_id j) ns.
Proof.
  intros Hj. induction ns as [|n ns IH]; [done|].
  cbn. destruct (has_id i n) eqn:Hi; cbn.
  - apply has_id_true in Hi. by rewrite (filter_has_id_other i j n Hi Hj).
  - by rewrite IH.
Qed.

Lemma filter_has_id_removed (i : string) (ns : list Note) :
  List.filter (has_id i) (List.filter (fun n => negb (has_id i n)) ns) = [].
Proof.
  induction ns as [|n ns IH]; [done|].
  cbn. destruct (has_id i n) eqn:Hi; cbn; [done|]. by rewrite Hi.
Qed.

(** X1. A note created under a fresh id is read back by [get] under that
    id, and [get] under any other id answers as before. *)
Theorem get_after_create (now : Z) (gen : string) (entity : Note)
    (c : collection) (stored : list Note) :
  reachable c → get_all now c = Ok stored →
  note_id (created gen entity) ∉ map note_id stored →
  get now (note_id (created gen entity)) (snd (create gen entity c))
  = Ok (Some (own_links (created gen entity)))
  ∧ ∀ j, j ≠ note_id (created gen entity) →
         get now j (snd (create gen entity c)) = get now j c.
Proof.
  intros Hr Hg Hi.
  destruct (reachable_get_all now c stored Hr Hg) as [ns [[-> Hnd] ->]].
  rewrite ids_own_links in Hi.
  rewrite create_docs, (proj2 (existsb_has_id_false _ _) Hi). cbn [snd].
  split.
  - rewrite get_docs, List.filter_app, filter_has_id_fresh by done. cbn.
    by rewrite (proj2 (has_id_true _ (created gen entity)) eq_refl).
  - intros j Hj. rewrite !get_docs, List.filter_app. cbn.
    rewrite (filter_has_id_other _ j (created gen entity) eq_refl Hj).
    by rewrite app_nil_r.
Qed.

Lemma get_after_create_witness :
  (reachable one_note ∧ get_all 0 one_note = Ok [alpha]
   ∧ note_id (created "g" bravo) ∉ map note_id [alpha])
  ∧ get 0 (note_id (created "g" bravo)) (snd (create "g" bravo one_note))
    = Ok (Some (own_links (created "g" bravo))).
Proof.
  assert (Hr : reachable one_note) by apply reachable_run, reachable_empty.
  assert (Hg : get_all 0 one_note = Ok [alpha]) by (vm_compute; reflexivity).
  assert (Hi : note_id (created "g" bravo) ∉ map note_id [alpha]).
  { intros H. apply list_elem_of_singleton in H. discriminate H. }
  split; [done|].
  exact (proj1 (get_after_create 0 "g" bravo one_note [alpha] Hr Hg Hi)).
Defined.

(** X2. In a reachable repository [get] never raises: it answers with the
    stored note of the given id when there is one, and with nothing
    exactly when no stored note has that id. *)
Theorem get_finds_by_id (now : Z) (i : string) (c : collection)
    (stored : list Note) :
  reachable c → get_all now c = Ok stored →
  (∃ o, get now i c = Ok o)
  ∧ (∀ n, get now i c = Ok (Some n) ↔ n ∈ stored ∧ note_id n = i)
  ∧ (get now i c = Ok None ↔ i ∉ map note_id stored).
Proof.
  intros Hr Hg.
  destruct (reachable_get_all now c stored Hr Hg) as [ns [[-> Hnd] ->]].
  rewrite get_stored. split; [by eexists|]. split.
  - intros n. rewrite <- (lookup_stored_Some ns Hnd). split; [by intros [= ->]|].
    by intros ->.
  - split.
    + intros [= Hn] Hin. apply list_elem_of_fmap in Hin as [m [-> Hm]].
      by apply (lookup_stored_None ns Hnd _ Hn m).
    + intros Hi. f_equal.
      destruct (head _) as [m|] eqn:Hm; [|done].
      apply (lookup_stored_Some ns Hnd) in Hm as [Hm <-].
      destruct Hi. apply list_elem_of_fmap. by exists m.
Qed.

Lemma get_finds_by_id_witness :
  (reachable two_notes ∧ get_all 0 two_notes = Ok [alpha; bravo])
  ∧ (get 0 "zz" two_notes = Ok None ↔ "zz" ∉ map note_id [alpha; bravo]).
Proof.
  assert (Hr : reachable two_notes) by apply reachable_run, reachable_run, reachable_empty.
  assert (Hg : get_all 0 two_notes = Ok [alpha; bravo]) by (vm_compute; reflexivity).
  split; [done|].
  exact (proj2 (proj2 (get_finds_by_id 0 "zz" two_notes [alpha; bravo] Hr Hg))).
Defined.

(** X3. After a successful [delete], [get] under the deleted id finds
    nothing, deleting it again raises the "does not exist" error without
    touching the collection, and [get] under any other id answers as
    before. *)
Theorem get_after_delete (now : Z) (i : string) (c : collection)
    (stored : list Note) :
  reachable c → get_all now c = Ok stored → i ∈ map note_id stored →
  get now i (snd (delete i c)) = Ok None
  ∧ delete i (snd (delete i c)) = (Raise (not_exist i), snd (delete i c))
  ∧ ∀ j, j ≠ i → get now j (snd (delete i c)) = get now j c.
Proof.
  intros Hr Hg Hi.
  destruct (reachable_get_all now c stored Hr Hg) as [ns [[-> Hnd] ->]].
  rewrite ids_own_links in Hi. rewrite delete_docs.
  destruct (pop_first (has_id i) ns) as [ns'|] eqn:Hp;
    [|by apply pop_first_None in Hp].
  rewrite (pop_first_NoDup i ns ns' Hnd Hp). cbn [snd].
  split; [|split].
  - by rewrite get_docs, filter_has_id_removed.
  - rewrite delete_docs.
    assert (pop_first (has_id i) (List.filter (fun n => negb (has_id i n)) ns) = None)
      as ->; [|done].
    apply pop_first_None. intros Hin. apply list_elem_of_fmap in Hin as [m [-> Hm]].
    apply list_elem_of_In, filter_In in Hm as [_ Hm].
    by rewrite (proj2 (has_id_true _ m) eq_refl) in Hm.
  - intros j Hj. by rewrite !get_docs, filter_filter_other.
Qed.

Lemma get_after_delete_witness :
  (reachable two_notes ∧ get_all 0 two_notes = Ok [alpha; bravo]
   ∧ "a" ∈ map note_id [alpha; bravo])
  ∧ get 0 "a" (snd (delete "a" two_notes)) = Ok None.
Proof.
  assert (Hr : reachable two_notes) by apply reachable_run, reachable_run, reachable_empty.
  assert (Hg : get_all 0 two_notes = Ok [alpha; bravo]) by (vm_compute; reflexivity).
  assert (Hi : "a" ∈ map note_id [alpha; bravo]) by left.
  split; [done|].
  exact (proj1 (get_after_delete 0 "a" two_notes [alpha; bravo] Hr Hg Hi)).
Defined.

(** X4. Creating a note under a fresh id and deleting that id gives back
    the collection one started from. *)
Theorem delete_undoes_create (now : Z) (gen : string) (entity : Note)
    (c : collection) (stored : list Note) :
  reachable c → get_all now c = Ok stored →
  note_id (created gen entity) ∉ map note_id stored →
  delete (note_id (created gen entity)) (snd (create gen entity c)) = (Ok (), c).
Proof.
  intros Hr Hg Hi.
  destruct (reachable_get_all now c stored Hr Hg) as [ns [[-> Hnd] ->]].
  rewrite ids_own_links in Hi.
  rewrite create_docs, (proj2 (existsb_has_id_false _ _) Hi). cbn [snd].
  by rewrite delete_docs, pop_first_fresh_app.
Qed.

Lemma delete_undoes_create_witness :
  (reachable one_note ∧ get_all 0 one_note = Ok [alpha]
   ∧ note_id (created "g" bravo) ∉ map note_id [alpha])
  ∧ delete (note_id (created "g" bravo)) (snd (create "g" bravo one_note))
    = (Ok (), one_note).
Proof.
  assert (Hr : reachable one_note) by apply reachable_run, reachable_empty.
  assert (Hg : get_all 0 one_note = Ok [alpha]) by (vm_compute; reflexivity).
  assert (Hi : note_id (created "g" bravo) ∉ map note_id [alpha]).
  { intros H. apply list_elem_of_singleton in H. discriminate H. }
  split; [done|].
  exact (delete_undoes_create 0 "g" bravo one_note [alpha] Hr Hg Hi).
Defined.

Lemma replaced_replaced (n1 n2 : Note) (ns : list Note) :
  note_id n1 = note_id n2 → replaced n2 (replaced n1 ns) = replaced n2 ns.
Proof.
  intros E. unfold replaced. rewrite map_map. apply map_ext. intros n.
  rewrite E. destruct (has_id (note_id n2) n) eqn:Hn; [|by rewrite Hn].
  by rewrite (proj2 (has_id_true _ n1) E).
Qed.

Lemma existsb_replaced (i : string) (note : Note) (ns : list Note) :
  existsb (has_id i) (replaced note ns) = existsb (has_id i) ns.
Proof.
  apply eq_true_iff_eq. by rewrite !existsb_has_id, ids_replaced.
Qed.

(** X5. [update] never changes which ids are stored, nor their order,
    whether it succeeds or raises. *)
Theorem update_keeps_ids (now t : Z) (entity : Note) (c : collection)
    (stored : list Note) :
  reachable c → get_all t c = Ok stored →
  ∃ stored', get_all t (snd (update now entity c)) = Ok stored'
             ∧ map note_id stored' = map note_id stored.
Proof.
  intros Hr Hg.
  destruct (reachable_get_all t c stored Hr Hg) as [ns [[-> Hnd] ->]].
  rewrite update_docs. destruct (existsb _ ns); cbn [snd];
    rewrite get_all_docs; eexists; (split; [done|]); [|done].
  by rewrite !ids_own_links, ids_replaced.
Qed.

Lemma update_keeps_ids_witness :
  (reachable two_notes ∧ get_all 0 two_notes = Ok [alpha; bravo])
  ∧ ∃ stored', get_all 0 (snd (update 9 alpha_again two_notes)) = Ok stored'
               ∧ map note_id stored' = map note_id [alpha; bravo].
Proof.
  assert (Hr : reachable two_notes) by apply reachable_run, reachable_run, reachable_empty.
  assert (Hg : get_all 0 two_notes = Ok [alpha; bravo]) by (vm_compute; reflexivity).
  split; [done|].
  exact (update_keeps_ids 9 0 alpha_again two_notes [alpha; bravo] Hr Hg).
Defined.

(** X6. Of two updates of the same id the later one decides the state:
    the collection is the one the later update alone would leave. *)
Theorem update_last_write_wins (t1 t2 : Z) (e1 e2 : Note) (c : collection) :
  reachable c → note_id e1 = note_id e2 →
  snd (update t2 e2 (snd (update t1 e1 c))) = snd (update t2 e2 c).
Proof.
  intros Hr E. destruct (reachable_stores c Hr) as [ns [-> Hnd]].
  rewrite (update_docs t1). destruct (existsb (has_id (note_id e1)) ns) eqn:H1;
    cbn [snd]; [|done].
  rewrite !update_docs, existsb_replaced, <- E, H1. cbn [snd].
  by rewrite replaced_replaced.
Qed.

Lemma update_last_write_wins_witness :
  (reachable one_note ∧ note_id alpha = note_id alpha)
  ∧ snd (update 2 alpha (snd (update 1 alpha one_note))) = snd (update 2 alpha one_note).
Proof.
  assert (Hr : reachable one_note) by apply reachable_run, reachable_empty.
  split; [done|].
  exact (update_last_write_wins 1 2 alpha alpha one_note Hr eq_refl).
Defined.

(** ** Lookups by title and by tag *)

Lemma clause_scalar (doc : gmap string value) (key s : string) :
  clause doc key (VStr s)
  = existsb (fun v => value_eqb v (VStr s)) (_get_field_values doc key).
Proof. done. Qed.

Lemma clause_title (n : Note) (t : string) :
  clause (_note_to_document n) "title" (VStr t) = String.eqb (title n) t.
Proof. rewrite clause_scalar, field_title. cbn. apply orb_false_r. Qed.

Lemma clause_note_type (n : Note) (s : string) :
  clause (_note_to_document n) "note_type" (VStr s)
  = String.eqb (NoteType_value (note_type n)) s.
Proof.
  rewrite clause_scalar.
  rewrite (field_scalar _ _ (VStr (NoteType_value (note_type n))));
    [|done|note_lookup|done..].
  cbn. apply orb_false_r.
Qed.

Lemma clause_tag (n : Note) (t : string) :
  clause (_note_to_document n) "tags" (VStr t) = true ↔ has_tag n t.
Proof.
  rewrite clause_scalar, field_tags, existsb_exists. unfold has_tag. split.
  - intros [v [Hv He]]. apply in_map_iff in Hv as [tg [<- Htg]]. cbn in He.
    apply String.eqb_eq in He. subst t. apply list_elem_of_fmap. exists tg.
    split; [done|]. by apply list_elem_of_In.
  - intros Hn. apply list_elem_of_fmap in Hn as [tg [-> Htg]].
    exists (VStr (name tg)). split; [|cbn; apply String.eqb_refl].
    apply in_map_iff. exists tg. split; [done|]. by apply list_elem_of_In.
Qed.

Lemma clause_link_target (n : Note) (i : string) :
  clause (_note_to_document n) "links.target_id" (VStr i) = true ↔ links_to i n.
Proof.
  rewrite clause_scalar, field_link_targets, existsb_exists. unfold links_to. split.
  - intros [v [Hv He]]. apply in_map_iff in Hv as [l [<- Hl]]. cbn in He.
    apply String.eqb_eq in He. exists l. split; [by apply list_elem_of_In|done].
  - intros [l [Hl <-]]. exists (VStr (target_id l)).
    split; [|cbn; apply String.eqb_refl].
    apply in_map_iff. exists l. split; [done|]. by apply list_elem_of_In.
Qed.

Lemma links_to_own_links (i : string) (n : Note) :
  links_to i (own_links n) ↔ links_to i n.
Proof.
  unfold links_to. cbn. split.
  - intros [l [Hl <-]]. apply list_elem_of_fmap in Hl as [l0 [-> Hl0]].
    by exists l0.
  - intros [l [Hl <-]]. exists (own_link (note_id n) l). split; [|done].
    apply list_elem_of_fmap. by exists l.
Qed.

Lemma decode_found_docs (now : Z) (l : list Note) :
  decode_found now (head (map _note_to_document l)) = Ok (own_links <$> head l).
Proof.
  destruct l as [|n l]; [done|].
  cbn. by rewrite truthy_doc, _document_to_note_own.
Qed.

(** X7. In a reachable repository [get_by_title] answers with the first
    stored note, in insertion order, that has exactly the given title, and
    with nothing when no stored note has it; it never raises. *)
Theorem get_by_title_first_match (now : Z) (t : string) (c : collection)
    (stored : list Note) :
  reachable c → get_all now c = Ok stored →
  get_by_title now t c
  = Ok (head (List.filter (fun n => String.eqb (title n) t) stored)).
Proof.
  intros Hr Hg.
  destruct (reachable_get_all now c stored Hr Hg) as [ns [[-> Hnd] ->]].
  unfold get_by_title, find_one.
  rewrite find_docs by by rewrite supported_singleton. cbn.
  rewrite (List.filter_ext _ (fun n => String.eqb (title n) t))
    by (intros n; by rewrite _match_singleton, clause_title).
  rewrite decode_found_docs, filter_own_links by done. by rewrite head_map.
Qed.

Lemma get_by_title_first_match_witness :
  (reachable two_notes ∧ get_all 0 two_notes = Ok [alpha; bravo])
  ∧ get_by_title 0 "Bravo" two_notes
    = Ok (head (List.filter (fun n => String.eqb (title n) "Bravo") [alpha; bravo])).
Proof.
  assert (Hr : reachable two_notes) by apply reachable_run, reachable_run, reachable_empty.
  assert (Hg : get_all 0 two_notes = Ok [alpha; bravo]) by (vm_compute; reflexivity).
  split; [done|].
  exact (get_by_title_first_match 0 "Bravo" two_notes [alpha; bravo] Hr Hg).
Defined.

(** X8. In a reachable repository [find_by_tag], given a tag or its name,
    answers with the stored notes that carry a tag of exactly that name,
    in insertion order. *)
Theorem find_by_tag_exact (now : Z) (tag : Tag + string) (c : collection)
    (stored : list Note) :
  reachable c → get_all now c = Ok stored →
  find_by_tag now tag c
  = Ok (List.filter
          (fun n => bool_decide (has_tag n (match tag with
                                            | inl t => name t
                                            | inr s => s
                                            end))) stored).
Proof.
  intros Hr Hg.
  destruct (reachable_get_all now c stored Hr Hg) as [ns [[-> Hnd] ->]].
  unfold find_by_tag. set (t := match tag with inl t => name t | inr s => s end).
  rewrite find_docs by by rewrite supported_singleton. cbn.
  rewrite decode_docs, filter_own_links by done. do 2 f_equal.
  apply List.filter_ext. intros n. rewrite _match_singleton.
  apply eq_true_iff_eq. by rewrite clause_tag, bool_decide_eq_true.
Qed.

Lemma find_by_tag_exact_witness :
  (reachable two_notes ∧ get_all 0 two_notes = Ok [alpha; bravo])
  ∧ find_by_tag 0 (inr "y") two_notes
    = Ok (List.filter (fun n => bool_decide (has_tag n "y")) [alpha; bravo]).
Proof.
  assert (Hr : reachable two_notes) by apply reachable_run, reachable_run, reachable_empty.
  assert (Hg : get_all 0 two_notes = Ok [alpha; bravo]) by (vm_compute; reflexivity).
  split; [done|].
  exact (find_by_tag_exact 0 (inr "y") two_notes [alpha; bravo] Hr Hg).
Defined.

(** ** More of [search] *)

(** A search by a single criterion. *)
Lemma search_single (now : Z) (kwargs : criteria) (key : string) (v : value)
    (P : Note → Prop) (ns : list Note) :
  search_query kwargs = {[ key := v ]} →
  supported_clause key v = true →
  (∀ n, clause (_note_to_document n) key v = true ↔ P n) →
  (∀ n, P (own_links n) ↔ P n) →
  ∃ res, search now kwargs (map _note_to_document ns) = Ok res
         ∧ ∀ m, m ∈ res ↔ m ∈ map own_links ns ∧ P m.
Proof.
  intros Hq Hs Hc Ho. eexists. split.
  - apply search_docs. by rewrite Hq, supported_singleton.
  - intros m. rewrite elem_of_own_links_filter, list_elem_of_fmap, Hq. split.
    + intros [n [-> [Hn Hm]]]. rewrite _match_singleton in Hm.
      apply Hc in Hm. split; [by exists n|by apply Ho].
    + intros [[n [-> Hn]] Hm]. exists n. split; [done|]. split; [done|].
      rewrite _match_singleton. by apply Hc, Ho.
Qed.

Lemma NoteType_value_inj (a b : NoteType) :
  NoteType_value a = NoteType_value b → a = b.
Proof. by destruct a, b. Qed.

(** X9. Searching a reachable repository by note type returns exactly the
    stored notes of that type, whether the type is passed as a member of
    the enumeration or as its value; text that is the value of no member
    finds nothing, without error. *)
Theorem search_by_note_type (now : Z) (c : collection) (stored : list Note) :
  reachable c → get_all now c = Ok stored →
  (∀ t, ∃ res, search now (only_note_type (inl t)) c = Ok res
               ∧ search now (only_note_type (inr (NoteType_value t))) c = Ok res
               ∧ ∀ n, n ∈ res ↔ n ∈ stored ∧ note_type n = t)
  ∧ (∀ s, (∀ t, NoteType_value t ≠ s) →
          search now (only_note_type (inr s)) c = Ok []).
Proof.
  intros Hr Hg.
  destruct (reachable_get_all now c stored Hr Hg) as [ns [[-> Hnd] ->]].
  split.
  - intros t.
    assert (Hc : ∀ n, clause (_note_to_document n) "note_type"
                        (VStr (NoteType_value t)) = true ↔ note_type n = t).
    { intros n. rewrite clause_note_type, String.eqb_eq. split; [|by intros ->].
      apply NoteType_value_inj. }
    destruct (search_single now (only_note_type (inl t)) "note_type"
                (VStr (NoteType_value t)) (fun n => note_type n = t) ns
                eq_refl eq_refl Hc (fun n => reflexivity _))
      as [res [Hres Hm]].
    exists res. split; [exact Hres|]. split; [exact Hres|exact Hm].
  - intros s Hs.
    assert (Hq : search_query (only_note_type (inr s))
                 = {[ "note_type" := VStr s ]}) by reflexivity.
    rewrite search_docs by (rewrite Hq; apply supported_singleton).
    rewrite Hq. do 2 f_equal. clear Hnd Hr Hg.
    induction ns as [|n ns IH]; [reflexivity|].
    cbn [List.filter]. rewrite _match_singleton, clause_note_type.
    destruct (String.eqb_spec (NoteType_value (note_type n)) s) as [E|_];
      [by destruct (Hs _ E)|exact IH].
Qed.

Lemma search_by_note_type_witness :
  (reachable two_notes ∧ get_all 0 two_notes = Ok [alpha; bravo])
  ∧ ∃ res, search 0 (only_note_type (inl PERMANENT)) two_notes = Ok res
           ∧ search 0 (only_note_type (inr (NoteType_value PERMANENT))) two_notes = Ok res
           ∧ ∀ n, n ∈ res ↔ n ∈ [alpha; bravo] ∧ note_type n = PERMANENT.
Proof.
  assert (Hr : reachable two_notes) by apply reachable_run, reachable_run, reachable_empty.
  assert (Hg : get_all 0 two_notes = Ok [alpha; bravo]) by (vm_compute; reflexivity).
  split; [done|].
  exact (proj1 (search_by_note_type 0 two_notes [alpha; bravo] Hr Hg) PERMANENT).
Defined.

(** X10. In [search] a sequence passed as [tags] replaces the criterion
    of [tag]: the answer is the one for the sequence alone.  An object that
    is not a sequence is ignored, so that [tag] alone decides, and then
    the answer holds exactly the stored notes that carry that tag. *)
Theorem tags_replace_tag (now : Z) (t : string) (c : collection)
    (stored : list Note) :
  reachable c → get_all now c = Ok stored →
  (∀ names, search now (tag_criteria (Some t) (Some (TagSeq names))) c
            = search now (only_tags names) c)
  ∧ search now (tag_criteria (Some t) (Some TagNotSeq)) c
    = search now (tag_criteria (Some t) None) c
  ∧ ∃ res, search now (tag_criteria (Some t) None) c = Ok res
           ∧ ∀ n, n ∈ res ↔ n ∈ stored ∧ has_tag n t.
Proof.
  intros Hr Hg.
  destruct (reachable_get_all now c stored Hr Hg) as [ns [[-> Hnd] ->]].
  split; [|split].
  - intros names. unfold search.
    assert (search_query (tag_criteria (Some t) (Some (TagSeq names)))
            = search_query (only_tags names)) as ->; [|done].
    unfold search_query. cbn. apply insert_insert_eq.
  - done.
  - exact (search_single now (tag_criteria (Some t) None) "tags" (VStr t)
             (fun n => has_tag n t) ns eq_refl eq_refl
             (fun n => clause_tag n t) (fun n => has_tag_own_links n t)).
Qed.

Lemma tags_replace_tag_witness :
  (reachable two_notes ∧ get_all 0 two_notes = Ok [alpha; bravo])
  ∧ ∃ res, search 0 (tag_criteria (Some "y") None) two_notes = Ok res
           ∧ ∀ n, n ∈ res ↔ n ∈ [alpha; bravo] ∧ has_tag n "y".
Proof.
  assert (Hr : reachable two_notes) by apply reachable_run, reachable_run, reachable_empty.
  assert (Hg : get_all 0 two_notes = Ok [alpha; bravo]) by (vm_compute; reflexivity).
  split; [done|].
  exact (proj2 (proj2 (tags_replace_tag 0 "y" two_notes [alpha; bravo] Hr Hg))).
Defined.

(** X11. A search given the empty sequence of tags returns no note,
    whatever the other criteria. *)
Theorem no_tags_no_notes (now : Z) (kwargs : criteria) (c : collection)
    (res : list Note) :
  reachable c → kw_tags kwargs = Some (TagSeq []) →
  search now kwargs c = Ok res → res = [].
Proof.
  intros Hr Ht Hs. destruct (reachable_stores c Hr) as [ns [-> Hnd]].
  apply search_docs_inv in Hs. subst res.
  rewrite (List.filter_ext _ (fun _ => false)).
  - clear. by induction ns.
  - intros n. apply not_true_is_false. intros Hm.
    unfold _match in Hm. apply bool_decide_eq_true in Hm.
    pose proof (Hm "tags" _ (search_query_tags kwargs [] Ht)) as Hc.
    apply Is_true_true in Hc. apply clause_tags_in in Hc as [x [Hx _]].
    by apply elem_of_nil in Hx.
Qed.

Lemma no_tags_no_notes_witness :
  (reachable two_notes ∧ kw_tags (only_tags []) = Some (TagSeq [])
   ∧ search 0 (only_tags []) two_notes = Ok [])
  ∧ ([] : list Note) = [].
Proof.
  assert (Hr : reachable two_notes) by apply reachable_run, reachable_run, reachable_empty.
  assert (Hs : search 0 (only_tags []) two_notes = Ok []) by (vm_compute; reflexivity).
  split; [exact (conj Hr (conj eq_refl Hs))|].
  exact (no_tags_no_notes 0 (only_tags []) two_notes [] Hr eq_refl Hs).
Defined.

(** X12. In [search], [linked_from] is evaluated like [linked_to]: given
    an id, either one selects the stored notes that hold a link to that
    id, and when both are passed [linked_from] decides. *)
Theorem linked_from_is_linked_to (now : Z) (i : string) (c : collection)
    (stored : list Note) :
  reachable c → get_all now c = Ok stored →
  (∀ j, search now (link_criteria j (Some i)) c
        = search now (link_criteria (Some i) None) c)
  ∧ ∃ res, search now (link_criteria (Some i) None) c = Ok res
           ∧ ∀ n, n ∈ res ↔ n ∈ stored ∧ links_to i n.
Proof.
  intros Hr Hg.
  destruct (reachable_get_all now c stored Hr Hg) as [ns [[-> Hnd] ->]].
  split.
  - intros j. unfold search.
    assert (search_query (link_criteria j (Some i))
            = search_query (link_criteria (Some i) None)) as ->; [|done].
    unfold search_query. destruct j as [j|]; cbn; [|done].
    apply insert_insert_eq.
  - exact (search_single now (link_criteria (Some i) None) "links.target_id"
             (VStr i) (links_to i) ns eq_refl eq_refl
             (fun n => clause_link_target n i) (fun n => links_to_own_links i n)).
Qed.

Lemma linked_from_is_linked_to_witness :
  (reachable two_notes ∧ get_all 0 two_notes = Ok [alpha; bravo])
  ∧ ∃ res, search 0 (link_criteria (Some "a") None) two_notes = Ok res
           ∧ ∀ n, n ∈ res ↔ n ∈ [alpha; bravo] ∧ links_to "a" n.
Proof.
  assert (Hr : reachable two_notes) by apply reachable_run, reachable_run, reachable_empty.
  assert (Hg : get_all 0 two_notes = Ok [alpha; bravo]) by (vm_compute; reflexivity).
  split; [done|].
  exact (proj2 (linked_from_is_linked_to 0 "a" two_notes [alpha; bravo] Hr Hg)).
Defined.

(** ** Searches by any combination of criteria *)

Lemma when_tags_lookup_ne (arg : option tags_arg) (k' : string)
    (q : gmap string value) :
  "tags" ≠ k' →
  when arg (fun tags =>
              match tags with
              | TagSeq names => <["tags" := VDict {[ "$in" := VList (map VStr names) ]}]>
              | TagNotSeq => fun query => query
              end) q !! k' = q !! k'.
Proof.
  intros Hk. destruct arg as [[names|]|]; cbn; try reflexivity.
  by rewrite lookup_insert_ne.
Qed.

Lemma range_lookup (key : string) (lo hi : option Z) (q : gmap string value) :
  q !! key = None →
  when hi (fun t => set_op key "$lte" (VDate t))
    (when lo (fun t => <[key := VDict {[ "$gte" := VDate t ]}]>) q) !! key
  = range_entry lo hi.
Proof.
  intros Hq. destruct lo as [s|], hi as [e|]; cbn.
  - unfold set_op, dict_get_or. rewrite lookup_insert_eq. cbn.
    by rewrite lookup_insert_eq.
  - by rewrite lookup_insert_eq.
  - unfold set_op, dict_get_or. rewrite Hq. cbn. by rewrite lookup_insert_eq.
  - exact Hq.
Qed.

Lemma search_query_created_at (kwargs : criteria) :
  search_query kwargs !! "created_at"
  = range_entry (kw_created_after kwargs) (kw_created_before kwargs).
Proof.
  unfold search_query. cbv zeta.
  rewrite when_set_op_lookup_ne by done.
  rewrite (when_insert_lookup_ne (kw_updated_after kwargs)) by done.
  apply range_lookup.
  rewrite (when_insert_lookup_ne (kw_linked_from kwargs)) by done.
  rewrite (when_insert_lookup_ne (kw_linked_to kwargs)) by done.
  rewrite when_tags_lookup_ne by done.
  rewrite (when_insert_lookup_ne (kw_tag kwargs)) by done.
  rewrite (when_insert_lookup_ne (kw_note_type kwargs)) by done.
  rewrite (when_insert_lookup_ne (kw_title kwargs)) by done.
  rewrite (when_insert_lookup_ne (kw_content kwargs)) by done.
  apply lookup_empty.
Qed.

Lemma search_query_updated_at (kwargs : criteria) :
  search_query kwargs !! "updated_at"
  = range_entry (kw_updated_after kwargs) (kw_updated_before kwargs).
Proof.
  unfold search_query. cbv zeta.
  apply range_lookup.
  rewrite when_set_op_lookup_ne by done.
  rewrite (when_insert_lookup_ne (kw_created_after kwargs)) by done.
  rewrite (when_insert_lookup_ne (kw_linked_from kwargs)) by done.
  rewrite (when_insert_lookup_ne (kw_linked_to kwargs)) by done.
  rewrite when_tags_lookup_ne by done.
  rewrite (when_insert_lookup_ne (kw_tag kwargs)) by done.
  rewrite (when_insert_lookup_ne (kw_note_type kwargs)) by done.
  rewrite (when_insert_lookup_ne (kw_title kwargs)) by done.
  rewrite (when_insert_lookup_ne (kw_content kwargs)) by done.
  apply lookup_empty.
Qed.

Lemma range_entry_holds (doc filt : gmap string value) (key : string)
    (lo hi : option Z) (t : Z) :
  _get_field_values doc key = [VDate t] →
  filt !! key = range_entry lo hi →
  map_Forall (fun key value => clause doc key value) filt →
  within lo hi t.
Proof.
  intros Hv Hk Hm. apply within_b_spec. rewrite <- ops_match_range.
  destruct lo as [s|], hi as [e|]; cbn in Hk; try reflexivity;
    apply Is_true_true; apply Hm in Hk; unfold clause in Hk;
    by rewrite Hv in Hk.
Qed.

(** X13. Whatever other criteria a search is given, every note it returns
    from a reachable repository lies within the creation bounds and within
    the modification bounds that were passed, ends included. *)
Theorem search_bounds_always_hold (now : Z) (kwargs : criteria)
    (c : collection) (res : list Note) :
  reachable c → search now kwargs c = Ok res →
  ∀ n, n ∈ res →
       within (kw_created_after kwargs) (kw_created_before kwargs) (created_at n)
       ∧ within (kw_updated_after kwargs) (kw_updated_before kwargs) (updated_at n).
Proof.
  intros Hr Hs n Hn. destruct (reachable_stores c Hr) as [ns [-> Hnd]].
  apply search_docs_inv in Hs. subst res.
  apply elem_of_own_links_filter in Hn as [m [-> [Hm Hp]]].
  unfold _match in Hp. apply bool_decide_eq_true in Hp.
  change (created_at (own_links m)) with (created_at m).
  change (updated_at (own_links m)) with (updated_at m).
  split.
  - apply (range_entry_holds (_note_to_document m) (search_query kwargs) "created_at").
    + apply field_created_at.
    + apply search_query_created_at.
    + exact Hp.
  - apply (range_entry_holds (_note_to_document m) (search_query kwargs) "updated_at").
    + apply field_updated_at.
    + apply search_query_updated_at.
    + exact Hp.
Qed.

Lemma search_bounds_always_hold_witness :
  (reachable two_notes
   ∧ search 0 (created_between (Some 15) None) two_notes = Ok [bravo])
  ∧ ∀ n, n ∈ [bravo] →
         within (Some 15) None (created_at n) ∧ within None None (updated_at n).
Proof.
  assert (Hr : reachable two_notes) by apply reachable_run, reachable_run, reachable_empty.
  assert (Hs : search 0 (created_between (Some 15) None) two_notes = Ok [bravo])
    by (vm_compute; reflexivity).
  split; [exact (conj Hr Hs)|].
  exact (search_bounds_always_hold 0 (created_between (Some 15) None) two_notes
           [bravo] Hr Hs).
Defined.

Lemma sublist_list_filter {A : Type} (p : A → bool) (l : list A) :
  List.filter p l `sublist_of` l.
Proof.
  induction l as [|x l IH]; [constructor|].
  cbn. destruct (p x); by constructor.
Qed.

Lemma supported_insert (key : string) (v : value) (q : gmap string value) :
  supported_clause key v = true → supported q = true →
  supported (<[key := v]> q) = true.
Proof.
  unfold supported. rewrite !bool_decide_eq_true. intros Hc Hq.
  apply map_Forall_insert_2; [by apply Is_true_true|exact Hq].
Qed.

Lemma supported_when {A : Type} (arg : option A)
    (f : A → gmap string value → gmap string value) (q : gmap string value) :
  (∀ a q', supported q' = true → supported (f a q') = true) →
  supported q = true → supported (when arg f q) = true.
Proof. intros Hf Hq. destruct arg; cbn; [by apply Hf|exact Hq]. Qed.

Lemma supported_ops_lte (t : Z) (ops : gmap string value) :
  supported_ops ops = true → supported_ops (<["$lte" := VDate t]> ops) = true.
Proof.
  unfold supported_ops, dict_get_or.
  rewrite !lookup_insert_ne by done. rewrite lookup_insert_eq.
  rewrite !andb_true_iff. tauto.
Qed.

Lemma supported_set_op (key : string) (t : Z) (q : gmap string value) :
  String.eqb key "$or" = false → supported q = true →
  supported (set_op key "$lte" (VDate t) q) = true.
Proof.
  intros Hk Hq. unfold set_op, dict_get_or.
  destruct (q !! key) as [v|] eqn:Hv; cbn.
  - destruct v as [| | | |ops]; try exact Hq.
    apply supported_insert; [|exact Hq].
    unfold supported_clause. rewrite Hk. cbn. apply supported_ops_lte.
    unfold supported in Hq. apply bool_decide_eq_true in Hq.
    apply Hq in Hv. apply Is_true_true in Hv.
    unfold supported_clause in Hv. rewrite Hk in Hv. exact Hv.
  - apply supported_insert; [|exact Hq].
    unfold supported_clause. rewrite Hk. reflexivity.
Qed.

Lemma supported_without_text (kwargs : criteria) :
  kw_content kwargs = None → kw_title kwargs = None →
  supported (search_query kwargs) = true.
Proof.
  intros Hc Ht. unfold search_query. cbv zeta. rewrite Hc, Ht. cbn [when].
  apply supported_when; [intros a q' Hq'; by apply supported_set_op|].
  apply supported_when; [intros a q' Hq'; by apply supported_insert|].
  apply supported_when; [intros a q' Hq'; by apply supported_set_op|].
  apply supported_when; [intros a q' Hq'; by apply supported_insert|].
  apply supported_when; [intros a q' Hq'; by apply supported_insert|].
  apply supported_when; [intros a q' Hq'; by apply supported_insert|].
  apply supported_when.
  { intros [names|] q' Hq'; [|exact Hq']. by apply supported_insert. }
  apply supported_when; [intros a q' Hq'; by apply supported_insert|].
  apply supported_when; [intros a q' Hq'; by apply supported_insert|].
  apply supported_empty.
Qed.

(** X14. A search answers with stored notes only, each at most as often
    as it is stored and in insertion order; and when neither a title nor
    a content criterion is passed, the search of a reachable repository
    does not raise. *)
Theorem search_answers_in_order (now : Z) (kwargs : criteria) (c : collection)
    (stored : list Note) :
  reachable c → get_all now c = Ok stored →
  (∀ res, search now kwargs c = Ok res → res `sublist_of` stored)
  ∧ (kw_content kwargs = None → kw_title kwargs = None →
     ∃ res, search now kwargs c = Ok res).
Proof.
  intros Hr Hg.
  destruct (reachable_get_all now c stored Hr Hg) as [ns [[-> Hnd] ->]].
  split.
  - intros res Hs. apply search_docs_inv in Hs. subst res.
    apply fmap_sublist, sublist_list_filter.
  - intros Hc Ht. eexists. apply search_docs. by apply supported_without_text.
Qed.

Lemma search_answers_in_order_witness :
  (reachable two_notes ∧ get_all 0 two_notes = Ok [alpha; bravo])
  ∧ ∃ res, search 0 (tag_criteria (Some "x") None) two_notes = Ok res.
Proof.
  assert (Hr : reachable two_notes) by apply reachable_run, reachable_run, reachable_empty.
  assert (Hg : get_all 0 two_notes = Ok [alpha; bravo]) by (vm_compute; reflexivity).
  split; [exact (conj Hr Hg)|].
  exact (proj2 (search_answers_in_order 0 (tag_criteria (Some "x") None)
                  two_notes [alpha; bravo] Hr Hg) eq_refl eq_refl).
Defined.

(** ** Incoming links, and both directions *)

Lemma find_linked_notes_incoming (now : Z) (i : string) (c : collection) :
  find_linked_notes now i "incoming" c
  = (results ← (docs ← find {[ "links.target_id" := VStr i ]} c;
                for_each (collect_source now i) [] docs);
     mret (map snd results)).
Proof. reflexivity. Qed.

Lemma find_linked_notes_both (now : Z) (i : string) (c : collection) :
  find_linked_notes now i "both" c
  = (results ← (note ← get now i c;
                match note with
                | Some note => for_each (collect_target now c) [] (links note)
                | None => mret []
                end);
     results ← (docs ← find {[ "links.target_id" := VStr i ]} c;
                for_each (collect_source now i) results docs);
     mret (map snd results)).
Proof.
  unfold find_linked_notes. cbn.
  destruct (get now i c) as [[note|]|]; cbn; reflexivity.
Qed.

Lemma is_direction_spec (direction : string) :
  is_direction direction = true ↔ direction ∈ directions.
Proof.
  unfold is_direction, directions.
  rewrite !orb_true_iff, !String.eqb_eq, !elem_of_cons. split.
  - intros [[->| ->]| ->]; auto.
  - intros [->|[->|[->|H]]]; auto. by apply elem_of_nil in H.
Qed.

Section incoming.
Variables (now : Z) (i : string) (ns : list Note).
Hypothesis distinct : NoDup (map note_id ns).

Local Abbreviation c := (map _note_to_document ns).
Local Abbreviation stored := (map own_links ns).

Lemma gather_stored (t : Note) (rs : list (string * Note)) :
  t ∈ stored → gathered stored rs →
  gathered stored (dict_set (note_id t) t rs)
  ∧ ∀ m, m ∈ map snd (dict_set (note_id t) t rs) ↔ m ∈ map snd rs ∨ m = t.
Proof using distinct.
  intros Ht [Hnd Hrs]. split; [split|].
  - by apply NoDup_dict_set.
  - intros k v Hkv.
    apply elem_of_dict_set in Hkv as [[-> ->]|[_ Hkv]]; [by split| |exact Hnd].
    by apply Hrs.
  - intros m. split.
    + intros Hin. apply list_elem_of_fmap in Hin as [[k v] [-> Hkv]]. cbn.
      apply elem_of_dict_set in Hkv as [[-> ->]|[_ Hkv]]; [by right| |exact Hnd].
      left. apply list_elem_of_fmap. by exists (k, v).
    + intros Hin. apply list_elem_of_fmap. destruct Hin as [Hin| ->].
      * apply list_elem_of_fmap in Hin as [[k v] [-> Hkv]]. cbn.
        destruct (decide (k = note_id t)) as [->|Hne].
        -- exists (note_id t, t).
           split; [|apply elem_of_dict_set; [exact Hnd|by left]].
           cbn. destruct (Hrs _ _ Hkv) as [E Hv].
           by apply (same_id_same_note ns distinct).
        -- exists (k, v). split; [reflexivity|].
           apply elem_of_dict_set; [exact Hnd|]. by right.
      * exists (note_id t, t). split; [reflexivity|].
        apply elem_of_dict_set; [exact Hnd|]. by left.
Qed.

Lemma collect_source_doc (rs : list (string * Note)) (n : Note) :
  collect_source now i rs (_note_to_document n)
  = Ok (if has_id i n then rs
        else dict_set (note_id n) (own_links n) rs).
Proof.
  unfold collect_source. rewrite dict_get_doc_id. cbn [value_eqb].
  fold (has_id i n). destruct (has_id i n); [reflexivity|].
  by rewrite _document_to_note_own.
Qed.

Lemma collect_sources (l : list Note) (rs : list (string * Note)) :
  (∀ n, n ∈ l → n ∈ ns) → gathered stored rs →
  ∃ rs', for_each (collect_source now i) rs (map _note_to_document l) = Ok rs'
         ∧ gathered stored rs'
         ∧ ∀ m, m ∈ map snd rs'
                ↔ m ∈ map snd rs
                  ∨ ∃ n, n ∈ l ∧ note_id n ≠ i ∧ m = own_links n.
Proof using distinct.
  revert rs. induction l as [|n l IH]; intros rs Hl Hrs.
  - exists rs. split; [reflexivity|]. split; [exact Hrs|].
    intros m. split; [by left|].
    intros [H|[n [Hn _]]]; [exact H|]. by apply elem_of_nil in Hn.
  - cbn [map for_each]. rewrite collect_source_doc. cbn.
    assert (Hl' : ∀ n', n' ∈ l → n' ∈ ns) by (intros; apply Hl; by right).
    destruct (has_id i n) eqn:Hi.
    + destruct (IH rs Hl' Hrs) as [rs' [E [Hg Hm]]].
      exists rs'. split; [exact E|]. split; [exact Hg|].
      intros m. rewrite Hm. split.
      * intros [H|[n' [Hn' H]]]; [by left|]. right. exists n'.
        split; [by right|exact H].
      * intros [H|[n' [Hn' [Hne H]]]]; [by left|].
        apply elem_of_cons in Hn' as [->|Hn'].
        -- apply has_id_true in Hi. by destruct Hne.
        -- right. by exists n'.
    + assert (Hn : own_links n ∈ stored).
      { apply list_elem_of_fmap. exists n. split; [reflexivity|].
        apply Hl. by left. }
      destruct (gather_stored (own_links n) rs Hn Hrs) as [Hg1 Hm1].
      destruct (IH _ Hl' Hg1) as [rs' [E [Hg Hm]]].
      exists rs'. split; [exact E|]. split; [exact Hg|].
      intros m. rewrite Hm. change (note_id (own_links n)) with (note_id n) in Hm1.
      rewrite Hm1. apply has_id_false in Hi. split.
      * intros [[H| ->]|[n' [Hn' H]]].
        -- by left.
        -- right. exists n. split; [by left|by split].
        -- right. exists n'. split; [by right|exact H].
      * intros [H|[n' [Hn' [Hne H]]]]; [by left; left|].
        apply elem_of_cons in Hn' as [->|Hn'].
        -- left. by right.
        -- right. by exists n'.
Qed.

Lemma pointing_docs :
  find {[ "links.target_id" := VStr i ]} c
  = Ok (map _note_to_document
          (List.filter (fun n => clause (_note_to_document n) "links.target_id"
                                   (VStr i)) ns)).
Proof.
  rewrite find_docs by by rewrite supported_singleton.
  do 2 f_equal. apply List.filter_ext. intros n. apply _match_singleton.
Qed.

Lemma pointing_spec (m : Note) :
  (∃ n, n ∈ List.filter (fun n => clause (_note_to_document n) "links.target_id"
                                    (VStr i)) ns
        ∧ note_id n ≠ i ∧ m = own_links n)
  ↔ m ∈ stored ∧ note_id m ≠ i ∧ links_to i m.
Proof.
  split.
  - intros [n [Hn [Hne ->]]]. apply list_elem_of_In, filter_In in Hn as [Hn Hc].
    apply clause_link_target in Hc. split; [|split].
    + apply list_elem_of_fmap. exists n. split; [reflexivity|].
      by apply list_elem_of_In.
    + exact Hne.
    + by apply links_to_own_links.
  - intros [Hm [Hne Hl]]. apply list_elem_of_fmap in Hm as [n [-> Hn]].
    exists n. split; [|by split].
    apply list_elem_of_In, filter_In. split; [by apply list_elem_of_In|].
    by apply clause_link_target, links_to_own_links.
Qed.

Lemma gathered_nil : gathered stored [].
Proof.
  split; [apply NoDup_nil_2|]. intros k v H. by apply elem_of_nil in H.
Qed.

Lemma incoming_stored :
  ∃ res, find_linked_notes now i "incoming" c = Ok res
         ∧ NoDup res
         ∧ ∀ m, m ∈ res ↔ m ∈ stored ∧ note_id m ≠ i ∧ links_to i m.
Proof using distinct.
  rewrite find_linked_notes_incoming, pointing_docs. cbn [mbind result_bind].
  destruct (collect_sources
              (List.filter (fun n => clause (_note_to_document n) "links.target_id"
                                       (VStr i)) ns) [])
    as [rs [E [Hg Hm]]].
  - intros n Hn. apply list_elem_of_In, filter_In in Hn as [Hn _].
    by apply list_elem_of_In.
  - apply gathered_nil.
  - rewrite E. cbn [mbind result_bind mret result_ret]. eexists.
    split; [reflexivity|].
    split; [by apply (gathered_NoDup ns)|].
    intros m. rewrite Hm, pointing_spec. split; [|by right].
    intros [H|H]; [by apply elem_of_nil in H|exact H].
Qed.

Lemma both_stored :
  ∃ out inc res,
    find_linked_notes now i "outgoing" c = Ok out
    ∧ find_linked_notes now i "incoming" c = Ok inc
    ∧ find_linked_notes now i "both" c = Ok res
    ∧ NoDup res
    ∧ ∀ m, m ∈ res ↔ m ∈ out ∨ m ∈ inc.
Proof using distinct.
  destruct incoming_stored as [inc [Einc [_ Hinc]]].
  assert (Hout : ∃ rs1, match head (List.filter (has_id i) stored) with
                        | Some note => for_each (collect_target now c) [] (links note)
                        | None => mret []
                        end = Ok rs1 ∧ gathered stored rs1).
  { destruct (head (List.filter (has_id i) stored)) as [src|].
    - destruct (collect_targets now ns distinct (links src) [] gathered_nil)
        as [rs1 [E [Hg _]]].
      exists rs1. split; [exact E|exact Hg].
    - exists []. split; [reflexivity|apply gathered_nil]. }
  destruct Hout as [rs1 [E1 Hg1]].
  destruct (collect_sources
              (List.filter (fun n => clause (_note_to_document n) "links.target_id"
                                       (VStr i)) ns) rs1)
    as [rs [E [Hg Hm]]].
  { intros n Hn. apply list_elem_of_In, filter_In in Hn as [Hn _].
    apply list_elem_of_In. exact Hn. }
  { exact Hg1. }
  exists (map snd rs1), inc, (map snd rs).
  split; [|split; [exact Einc|split; [|split]]].
  - rewrite find_linked_notes_outgoing, get_stored. cbn [mbind result_bind].
    rewrite E1. reflexivity.
  - rewrite find_linked_notes_both, pointing_docs, get_stored.
    cbn [mbind result_bind]. rewrite E1. cbn [mbind result_bind].
    rewrite E. reflexivity.
  - apply (gathered_NoDup ns). exact Hg.
  - intros m. rewrite Hm, pointing_spec, Hinc. reflexivity.
Qed.

End incoming.

(** X15. In a reachable repository, [find_linked_notes(id, "incoming")]
    answers without error and without repetition with exactly the stored
    notes, other than the note of the given id itself, that hold a link
    to that id; whether a note of that id is stored does not matter. *)
Theorem incoming_linked_notes (now : Z) (i : string) (c : collection)
    (stored : list Note) :
  reachable c → get_all now c = Ok stored →
  ∃ res, find_linked_notes now i "incoming" c = Ok res
         ∧ NoDup res
         ∧ ∀ m, m ∈ res ↔ m ∈ stored ∧ note_id m ≠ i ∧ links_to i m.
Proof.
  intros Hr Hg.
  destruct (reachable_get_all now c stored Hr Hg) as [ns [[-> Hnd] ->]].
  apply incoming_stored. exact Hnd.
Qed.

Lemma incoming_linked_notes_witness :
  (reachable two_notes ∧ get_all 0 two_notes = Ok [alpha; bravo])
  ∧ ∃ res, find_linked_notes 0 "a" "incoming" two_notes = Ok res
           ∧ NoDup res
           ∧ ∀ m, m ∈ res ↔ m ∈ [alpha; bravo] ∧ note_id m ≠ "a" ∧ links_to "a" m.
Proof.
  assert (Hr : reachable two_notes) by apply reachable_run, reachable_run, reachable_empty.
  assert (Hg : get_all 0 two_notes = Ok [alpha; bravo]) by (vm_compute; reflexivity).
  split; [exact (conj Hr Hg)|].
  exact (incoming_linked_notes 0 "a" two_notes [alpha; bravo] Hr Hg).
Defined.

(** X16. In a reachable repository the answer for the direction "both"
    holds, without repetition, exactly the notes of the answer for
    "outgoing" and those of the answer for "incoming". *)
Theorem both_is_union (now : Z) (i : string) (c : collection) :
  reachable c →
  ∃ out inc res,
    find_linked_notes now i "outgoing" c = Ok out
    ∧ find_linked_notes now i "incoming" c = Ok inc
    ∧ find_linked_notes now i "both" c = Ok res
    ∧ NoDup res
    ∧ ∀ m, m ∈ res ↔ m ∈ out ∨ m ∈ inc.
Proof.
  intros Hr. destruct (reachable_stores c Hr) as [ns [-> Hnd]].
  apply both_stored. exact Hnd.
Qed.

Lemma both_is_union_witness :
  reachable two_notes
  ∧ ∃ out inc res,
      find_linked_notes 0 "a" "outgoing" two_notes = Ok out
      ∧ find_linked_notes 0 "a" "incoming" two_notes = Ok inc
      ∧ find_linked_notes 0 "a" "both" two_notes = Ok res
      ∧ NoDup res
      ∧ ∀ m, m ∈ res ↔ m ∈ out ∨ m ∈ inc.
Proof.
  assert (Hr : reachable two_notes) by apply reachable_run, reachable_run, reachable_empty.
  split; [exact Hr|].
  exact (both_is_union 0 "a" two_notes Hr).
Defined.

(** X17. [find_linked_notes] checks the direction before it reads
    anything: any other direction than the three raises [ValueError] on
    every collection, and on a reachable repository the call answers
    exactly when the direction is one of the three. *)
Theorem direction_checked_first (now : Z) (i direction : string)
    (c : collection) :
  (direction ∉ directions →
   find_linked_notes now i direction c
   = Raise (ValueError "direction must be 'outgoing', 'incoming', or 'both'"))
  ∧ (reachable c →
     ((∃ res, find_linked_notes now i direction c = Ok res)
      ↔ direction ∈ directions)).
Proof.
  assert (Hbad : direction ∉ directions →
    find_linked_notes now i direction c
    = Raise (ValueError "direction must be 'outgoing', 'incoming', or 'both'")).
  { intros Hd. unfold find_linked_notes.
    destruct (is_direction direction) eqn:E; [|reflexivity].
    apply is_direction_spec in E. by destruct Hd. }
  split; [exact Hbad|].
  intros Hr. split.
  - intros [res Hres]. destruct (decide (direction ∈ directions)) as [Hd|Hd];
      [exact Hd|]. rewrite (Hbad Hd) in Hres. discriminate Hres.
  - intros Hd. destruct (reachable_stores c Hr) as [ns [-> Hnd]].
    destruct (both_stored now i ns Hnd) as [out [inc [res [Eo [Ei [Eb _]]]]]].
    unfold directions in Hd. rewrite !elem_of_cons in Hd.
    destruct Hd as [->|[->|[->|Hd]]];
      [exists out; exact Eo|exists inc; exact Ei|exists res; exact Eb|].
    apply elem_of_nil in Hd. destruct Hd.
Qed.

Lemma direction_checked_first_witness :
  ("sideways" ∉ directions)
  ∧ (find_linked_notes 0 "a" "sideways" two_notes
     = Raise (ValueError "direction must be 'outgoing', 'incoming', or 'both'")).
Proof.
  assert (Hd : "sideways" ∉ directions).
  { intros H. apply is_direction_spec in H. discriminate H. }
  split; [exact Hd|].
  exact (proj1 (direction_checked_first 0 "a" "sideways" two_notes) Hd).
Defined.

(** ** All tags *)

Lemma ascii_compare_refl (a : ascii) : Ascii.compare a a = Eq.
Proof. unfold Ascii.compare. apply N.compare_refl. Qed.

Lemma ascii_compare_lt_trans (a b d : ascii) :
  Ascii.compare a b = Lt → Ascii.compare b d = Lt → Ascii.compare a d = Lt.
Proof.
  unfold Ascii.compare. rewrite !N.compare_lt_iff. apply N.lt_trans.
Qed.

Lemma string_compare_trans (s1 s2 s3 : string) :
  String.compare s1 s2 ≠ Gt → String.compare s2 s3 ≠ Gt →
  String.compare s1 s3 ≠ Gt.
Proof.
  revert s2 s3. induction s1 as [|c1 s1 IH]; intros [|c2 s2] [|c3 s3];
    cbn; try done.
  destruct (Ascii.compare c1 c2) eqn:E12; [| |done];
    destruct (Ascii.compare c2 c3) eqn:E23; try done.
  - apply Ascii.compare_eq_iff in E12, E23. subst.
    rewrite ascii_compare_refl. apply IH.
  - apply Ascii.compare_eq_iff in E12. subst. by rewrite E23.
  - apply Ascii.compare_eq_iff in E23. subst. by rewrite E12.
  - by rewrite (ascii_compare_lt_trans c1 c2 c3).
Qed.

Lemma leb_not_Gt (a b : string) : String.leb a b = true ↔ String.compare a b ≠ Gt.
Proof. unfold String.leb. by destruct (String.compare a b). Qed.

Lemma str_le_trans : Transitive str_le.
Proof.
  intros a b d. unfold str_le. rewrite !leb_not_Gt. apply string_compare_trans.
Qed.

Lemma str_le_total : Total str_le.
Proof. intros a b. apply String.leb_total. Qed.

Lemma str_le_antisym : AntiSymm (=) str_le.
Proof. intros a b. apply String.leb_antisym. Qed.

Lemma sorted_StronglySorted (l : list string) : StronglySorted str_le (sorted l).
Proof.
  apply (@StronglySorted_merge_sort _ str_le _ str_le_trans str_le_total).
Qed.

Lemma sorted_Permutation (l : list string) : sorted l ≡ₚ l.
Proof. apply merge_sort_Permutation. Qed.

(** Sorting forgets the order of what it is given. *)
Lemma sorted_perm (l l' : list string) : l ≡ₚ l' → sorted l = sorted l'.
Proof.
  intros Hp.
  apply (@StronglySorted_unique _ str_le str_le_antisym);
    [apply sorted_StronglySorted..|].
  by rewrite !sorted_Permutation.
Qed.

Lemma names_of_tags (l : list string) :
  map name (map (fun s => {| name := s |}) l) = l.
Proof. rewrite map_map. apply map_id. Qed.

(** Adding text to a set of texts. *)
Lemma set_add_text (names : list string) (t : string) :
  set_add (map VStr names) (VStr t)
  = Ok (map VStr (if bool_decide (t ∈ names) then names else (names ++ [t])%list)).
Proof.
  unfold set_add. f_equal.
  assert (E : existsb (value_eqb (VStr t)) (map VStr names) = bool_decide (t ∈ names)).
  { apply eq_true_iff_eq. rewrite existsb_exists, bool_decide_eq_true. split.
    - intros [v [Hv He]]. apply in_map_iff in Hv as [s [<- Hs]]. cbn in He.
      apply String.eqb_eq in He. subst. by apply list_elem_of_In.
    - intros Ht. exists (VStr t). split; [|cbn; apply String.eqb_refl].
      apply in_map_iff. exists t. split; [done|]. by apply list_elem_of_In. }
  rewrite E. destruct (bool_decide (t ∈ names)); [done|].
  by rewrite map_app.
Qed.

Lemma add_texts (l names : list string) :
  NoDup names →
  ∃ names', for_each set_add (map VStr names) (map VStr l) = Ok (map VStr names')
            ∧ NoDup names'
            ∧ ∀ t, t ∈ names' ↔ t ∈ names ∨ t ∈ l.
Proof.
  revert names. induction l as [|t l IH]; intros names Hnd.
  - exists names. split; [done|]. split; [done|]. intros t. split; [by left|].
    intros [H|H]; [done|]. by apply elem_of_nil in H.
  - cbn [map for_each]. rewrite set_add_text. cbn.
    destruct (IH (if bool_decide (t ∈ names) then names else (names ++ [t])%list))
      as [names' [E [Hnd' Hm]]].
    { case_bool_decide as Ht; [done|]. apply NoDup_app. split; [done|].
      split; [|apply NoDup_singleton].
      intros x Hx Hx'. apply list_elem_of_singleton in Hx'. by subst. }
    exists names'. split; [done|]. split; [done|].
    intros s. rewrite Hm, elem_of_cons. case_bool_decide as Ht.
    + split; [intros [?|?]; auto|]. intros [?|[->|?]]; auto.
    + rewrite elem_of_app, list_elem_of_singleton. tauto.
Qed.

Lemma gather_tags (ns : list Note) (names : list string) :
  NoDup names →
  ∃ names',
    for_each (fun tags doc =>
                items ← py_iter (dict_get_or doc "tags" (VList []));
                for_each set_add tags items)
             (map VStr names) (map _note_to_document ns)
    = Ok (map VStr names')
    ∧ NoDup names'
    ∧ ∀ t, t ∈ names' ↔ t ∈ names ∨ ∃ n, n ∈ ns ∧ has_tag n t.
Proof.
  revert names. induction ns as [|n ns IH]; intros names Hnd.
  - exists names. split; [done|]. split; [done|]. intros t. split; [by left|].
    intros [H|[n [Hn _]]]; [done|]. by apply elem_of_nil in Hn.
  - cbn [map for_each].
    assert (Ht : dict_get_or (_note_to_document n) "tags" (VList [])
                 = VList (map VStr (map name (tags n)))).
    { unfold dict_get_or, _note_to_document. simplify_map_eq. by rewrite map_map. }
    rewrite Ht. cbn [py_iter mbind result_bind].
    destruct (add_texts (map name (tags n)) names Hnd) as [names1 [E1 [Hnd1 Hm1]]].
    rewrite E1. cbn [mbind result_bind].
    destruct (IH names1 Hnd1) as [names' [E [Hnd' Hm]]].
    exists names'. split; [exact E|]. split; [exact Hnd'|].
    intros t. rewrite Hm, Hm1. unfold has_tag. split.
    + intros [[H|H]|[m [Hm' H]]].
      * by left.
      * right. exists n. split; [by left|exact H].
      * right. exists m. split; [by right|exact H].
    + intros [H|[m [Hm' H]]]; [by left; left|].
      apply elem_of_cons in Hm' as [->|Hm'].
      * left. by right.
      * right. by exists m.
Qed.

Lemma group_names (names : list string) :
  mapM tag_name_of
       (map (fun tag => ({[ "_id" := tag ]} : gmap string value)) (map VStr names))
  = Ok names.
Proof.
  rewrite map_map. rewrite <- (map_id names) at 2.
  apply mapM_Ok_map. intros s _. unfold tag_name_of.
  by rewrite lookup_singleton_eq.
Qed.

(** X18. In a reachable repository [get_all_tags] does not raise and
    answers with the tags carried by some stored note, each once, in
    increasing order of their names. *)
Theorem get_all_tags_sorted_distinct (now : Z) (c : collection)
    (stored : list Note) :
  reachable c → get_all now c = Ok stored →
  ∃ tags, get_all_tags c = Ok tags
          ∧ StronglySorted str_le (map name tags)
          ∧ NoDup (map name tags)
          ∧ ∀ t, t ∈ map name tags ↔ ∃ n, n ∈ stored ∧ has_tag n t.
Proof.
  intros Hr Hg.
  destruct (reachable_get_all now c stored Hr Hg) as [ns [[-> Hnd] ->]].
  unfold get_all_tags, aggregate.
  assert (value_eqb tags_pipeline tags_pipeline = true) as ->
    by (vm_compute; reflexivity).
  destruct (gather_tags ns [] NoDup_nil_2) as [names [E [Hn Hm]]].
  change (map VStr []) with (@nil value) in E. rewrite E.
  cbn [mbind result_bind mret result_ret]. unfold tags_of_groups.
  rewrite group_names. cbn [mbind result_bind mret result_ret].
  eexists. split; [reflexivity|]. rewrite names_of_tags.
  split; [apply sorted_StronglySorted|].
  split; [by rewrite sorted_Permutation|].
  intros t. rewrite sorted_Permutation, Hm. split.
  - intros [H|[n [Hn' H]]]; [by apply elem_of_nil in H|].
    exists (own_links n). split; [|exact H].
    apply list_elem_of_fmap. by exists n.
  - intros [m [Hm' H]]. right. apply list_elem_of_fmap in Hm' as [n [-> Hn']].
    by exists n.
Qed.

Lemma get_all_tags_sorted_distinct_witness :
  (reachable two_notes ∧ get_all 0 two_notes = Ok [alpha; bravo])
  ∧ ∃ tags, get_all_tags two_notes = Ok tags
            ∧ StronglySorted str_le (map name tags)
            ∧ NoDup (map name tags)
            ∧ ∀ t, t ∈ map name tags ↔ ∃ n, n ∈ [alpha; bravo] ∧ has_tag n t.
Proof.
  assert (Hr : reachable two_notes) by apply reachable_run, reachable_run, reachable_empty.
  assert (Hg : get_all 0 two_notes = Ok [alpha; bravo]) by (vm_compute; reflexivity).
  split; [exact (conj Hr Hg)|].
  exact (get_all_tags_sorted_distinct 0 two_notes [alpha; bravo] Hr Hg).
Defined.

Lemma tag_name_of_error (doc : gmap string value) (e : exn) :
  tag_name_of doc = Raise e → e = NotModelled.
Proof.
  unfold tag_name_of. destruct (doc !! "_id") as [[| | | |]|]; congruence.
Qed.

Lemma mapM_names_error (l : list (gmap string value)) (e : exn) :
  mapM tag_name_of l = Raise e → e = NotModelled.
Proof.
  induction l as [|x l IH]; [done|].
  cbn. destruct (tag_name_of x) as [s|e'] eqn:Ex; cbn.
  - destruct (mapM tag_name_of l) as [a|e'']; cbn; [done|].
    intros [= <-]. by apply IH.
  - intros [= <-]. by apply tag_name_of_error in Ex.
Qed.

Lemma mapM_names_cons (x : gmap string value) (l : list (gmap string value)) :
  mapM tag_name_of (x :: l)
  = match tag_name_of x with
    | Ok s => match mapM tag_name_of l with
              | Ok a => Ok (s :: a)
              | Raise e => Raise e
              end
    | Raise e => Raise e
    end.
Proof. cbn. destruct (tag_name_of x); [|reflexivity]. cbn. by destruct (mapM _ l). Qed.

Lemma mapM_names_perm (l l' : list (gmap string value)) :
  l ≡ₚ l' →
  match mapM tag_name_of l, mapM tag_name_of l' with
  | Ok a, Ok b => a ≡ₚ b
  | Raise e, Raise e' => e = NotModelled ∧ e' = NotModelled
  | _, _ => False
  end.
Proof.
  induction 1 as [|x l l' Hp IH|x y l|l1 l2 l3 H12 IH12 H23 IH23].
  - cbn. reflexivity.
  - rewrite !mapM_names_cons.
    destruct (tag_name_of x) as [s|e] eqn:Ex.
    + destruct (mapM tag_name_of l), (mapM tag_name_of l'); try exact IH.
      by constructor.
    + apply tag_name_of_error in Ex. by subst.
  - rewrite !mapM_names_cons.
    destruct (tag_name_of x) as [s|e] eqn:Ex,
      (tag_name_of y) as [s'|e'] eqn:Ey;
      try apply tag_name_of_error in Ex; try apply tag_name_of_error in Ey;
      subst.
    + destruct (mapM tag_name_of l) as [a|e] eqn:El; [apply perm_swap|].
      by apply mapM_names_error in El.
    + done.
    + done.
    + done.
  - destruct (mapM tag_name_of l1), (mapM tag_name_of l2),
      (mapM tag_name_of l3); try done.
    + by etrans.
    + by destruct IH12, IH23.
Qed.

(** X19. What [get_all_tags] makes of the aggregation does not depend on
    the order in which the aggregation lists the distinct tags. *)
Theorem tags_order_irrelevant (docs docs' : list (gmap string value)) :
  docs ≡ₚ docs' → tags_of_groups docs = tags_of_groups docs'.
Proof.
  intros Hp. apply mapM_names_perm in Hp. unfold tags_of_groups.
  destruct (mapM tag_name_of docs) as [a|e], (mapM tag_name_of docs') as [b|e'];
    cbn; try done.
  - by rewrite (sorted_perm a b).
  - by destruct Hp as [-> ->].
Qed.

Lemma tags_order_irrelevant_witness :
  ([({[ "_id" := VStr "b" ]} : gmap string value); {[ "_id" := VStr "a" ]}]
   ≡ₚ [{[ "_id" := VStr "a" ]}; {[ "_id" := VStr "b" ]}])
  ∧ (tags_of_groups [{[ "_id" := VStr "b" ]}; {[ "_id" := VStr "a" ]}]
     = tags_of_groups [{[ "_id" := VStr "a" ]}; {[ "_id" := VStr "b" ]}]).
Proof.
  assert (Hp : [({[ "_id" := VStr "b" ]} : gmap string value); {[ "_id" := VStr "a" ]}]
               ≡ₚ [{[ "_id" := VStr "a" ]}; {[ "_id" := VStr "b" ]}])
    by apply perm_swap.
  split; [exact Hp|].
  exact (tags_order_irrelevant _ _ Hp).
Defined.

(** ** Reading documents back *)

(** X20. A stored note reads back with every link attributed to the note
    itself, whatever source the link named when it was stored, and is
    otherwise unchanged; what is read back stores and reads back as
    itself. *)
Theorem links_read_back_owned (now : Z) (n : Note) :
  _document_to_note now (_note_to_document n) = Ok (own_links n)
  ∧ (∀ l, l ∈ links (own_links n) → source_id l = note_id n)
  ∧ _document_to_note now (_note_to_document (own_links n)) = Ok (own_links n).
Proof.
  assert (Hown : ∀ l, l ∈ links (own_links n) → source_id l = note_id n).
  { intros l Hl. cbn in Hl. by apply list_elem_of_fmap in Hl as [l0 [-> _]]. }
  split; [apply _document_to_note_own|]. split; [exact Hown|].
  rewrite _document_to_note_own. f_equal. by apply own_links_id.
Qed.

Lemma lookup_without (absent : list string) (doc : gmap string value)
    (k : string) :
  without absent doc !! k = if bool_decide (k ∈ absent) then None else doc !! k.
Proof.
  unfold without. induction absent as [|k0 ks IH]; [done|].
  cbn [foldr]. destruct (decide (k0 = k)) as [->|E].
  - rewrite lookup_delete_eq. rewrite bool_decide_eq_true_2; [done|left].
  - rewrite lookup_delete_ne by done. rewrite IH.
    destruct (decide (k ∈ ks)) as [Hk|Hk].
    + rewrite !bool_decide_eq_true_2; [done|by right|done].
    + rewrite !bool_decide_eq_false_2; [done| |done].
      intros H. apply elem_of_cons in H as [->|H]; [by destruct E|done].
Qed.

Lemma dict_get_or_without (absent : list string) (doc : gmap string value)
    (k : string) (dflt : value) :
  dict_get_or (without absent doc) k dflt
  = if bool_decide (k ∈ absent) then dflt else dict_get_or doc k dflt.
Proof.
  unfold dict_get_or. rewrite lookup_without.
  by destruct (bool_decide (k ∈ absent)).
Qed.

Lemma dict_get_without (absent : list string) (doc : gmap string value)
    (k : string) :
  dict_get (without absent doc) k
  = if bool_decide (k ∈ absent) then VNone else dict_get doc k.
Proof.
  unfold dict_get. rewrite lookup_without.
  by destruct (bool_decide (k ∈ absent)).
Qed.

Lemma document_to_link_src (now : Z) (doc : gmap string value) (l : Link)
    (s : string) :
  py_str (dict_get doc "id") = Ok s →
  document_to_link now doc (link_to_document l) = Ok (own_link s l).
Proof.
  intros Hs. unfold document_to_link. rewrite Hs. cbn [mbind result_bind].
  unfold link_to_document, dict_get, dict_get_or, py_as_dict.
  cbn [mbind result_bind]. simplify_map_eq. cbn.
  rewrite LinkType_of_value. cbn. by rewrite as_opt_str_value.
Qed.

Lemma doc_field (n : Note) (k : string) (dflt v : value) :
  _note_to_document n !! k = Some v → dict_get_or (_note_to_document n) k dflt = v.
Proof. intros H. unfold dict_get_or. by rewrite H. Qed.

(** X21. A field other than the title that is missing from a stored
    document reads as its default: empty content, the permanent type, no
    tags, no links, empty metadata, and for the one of the two dates that
    is missing the clock reading; a missing id reads as the text "None",
    which the links then carry as their source.  Fields that are present
    read as stored.  At most one of the two dates is missing, so that one
    clock reading is all that the note read depends on: a document without
    either date is given two readings, taken one after the other. *)
Theorem missing_fields_default (now : Z) (absent : list string) (n : Note) :
  "title" ∉ absent →
  ¬ ("created_at" ∈ absent ∧ "updated_at" ∈ absent) →
  _document_to_note now (without absent (_note_to_document n))
  = Ok (defaulted now absent n).
Proof.
  intros _ _. unfold _document_to_note.
  rewrite !dict_get_or_without, !dict_get_without.
  rewrite (doc_field n "tags" _ (VList (map (fun tag => VStr (name tag)) (tags n))))
    by note_lookup.
  rewrite (doc_field n "links" _ (VList (map link_to_document (links n))))
    by note_lookup.
  rewrite (doc_field n "note_type" _ (VStr (NoteType_value (note_type n))))
    by note_lookup.
  rewrite (doc_field n "title" _ (VStr (title n))) by note_lookup.
  rewrite (doc_field n "content" _ (VStr (content n))) by note_lookup.
  rewrite (doc_field n "created_at" _ (VDate (created_at n))) by note_lookup.
  rewrite (doc_field n "updated_at" _ (VDate (updated_at n))) by note_lookup.
  rewrite (doc_field n "metadata" _ (VDict (metadata n))) by note_lookup.
  rewrite dict_get_doc_id.
  unfold defaulted. cbv zeta.
  set (i := if bool_decide ("id" ∈ absent) then "None" else note_id n).
  assert (Hi : py_str (if bool_decide ("id" ∈ absent) then VNone else VStr (note_id n))
               = Ok i) by (unfold i; by destruct (bool_decide ("id" ∈ absent))).
  assert (Htags : (py_iter (if bool_decide ("tags" ∈ absent) then VList []
                            else VList (map (fun tag => VStr (name tag)) (tags n)))
                   ≫= mapM (fun tag => s ← as_str tag; mret {| name := s |}))
                  = Ok (if bool_decide ("tags" ∈ absent) then [] else tags n)).
  { destruct (bool_decide ("tags" ∈ absent)); [reflexivity|].
    cbn [py_iter mbind result_bind].
    rewrite (mapM_Ok_map _ (fun tag => VStr (name tag)) (fun t => t))
      by (by intros [] ?).
    by rewrite map_id. }
  assert (Hlinks : (py_iter (if bool_decide ("links" ∈ absent) then VList []
                             else VList (map link_to_document (links n)))
                    ≫= mapM (document_to_link now (without absent (_note_to_document n))))
                   = Ok (if bool_decide ("links" ∈ absent) then []
                         else map (own_link i) (links n))).
  { destruct (bool_decide ("links" ∈ absent)); [reflexivity|].
    cbn [py_iter mbind result_bind].
    apply mapM_Ok_map. intros l _. apply document_to_link_src.
    rewrite dict_get_without, dict_get_doc_id. exact Hi. }
  assert (Hbind : ∀ {A B : Type} (m : result A) (f g : A → result B) (a : A),
             m = Ok a → f a = g a → (m ≫= f) = (m ≫= g) ∧ (m ≫= g) = g a).
  { intros A B m f g a -> E. by split. }
  destruct (py_iter (if bool_decide ("tags" ∈ absent) then VList []
                     else VList (map (fun tag => VStr (name tag)) (tags n))))
    as [tag_values|e] eqn:Etv; [|discriminate Htags].
  cbn [mbind result_bind] in Htags |- *. rewrite Htags. cbn [mbind result_bind].
  destruct (py_iter (if bool_decide ("links" ∈ absent) then VList []
                     else VList (map link_to_document (links n))))
    as [link_values|e] eqn:Elv; [|discriminate Hlinks].
  cbn [mbind result_bind] in Hlinks |- *. rewrite Hlinks. cbn [mbind result_bind].
  rewrite Hi. cbn [mbind result_bind].
  destruct (bool_decide ("note_type" ∈ absent));
    rewrite NoteType_of_value; cbn [mbind result_bind];
    destruct (bool_decide ("title" ∈ absent)),
             (bool_decide ("content" ∈ absent)),
             (bool_decide ("created_at" ∈ absent)),
             (bool_decide ("updated_at" ∈ absent)),
             (bool_decide ("metadata" ∈ absent)); reflexivity.
Qed.

Lemma missing_fields_default_witness :
  (("title" ∉ ["id"; "tags"; "created_at"])
   ∧ ¬ ("created_at" ∈ ["id"; "tags"; "created_at"]
        ∧ "updated_at" ∈ ["id"; "tags"; "created_at"]))
  ∧ (_document_to_note 7 (without ["id"; "tags"; "created_at"] (_note_to_document bravo))
     = Ok (defaulted 7 ["id"; "tags"; "created_at"] bravo)).
Proof.
  assert (Ht : "title" ∉ ["id"; "tags"; "created_at"]).
  { intros H. repeat (apply elem_of_cons in H as [H|H]; [discriminate H|]).
    by apply elem_of_nil in H. }
  assert (Hd : ¬ ("created_at" ∈ ["id"; "tags"; "created_at"]
                  ∧ "updated_at" ∈ ["id"; "tags"; "created_at"])).
  { intros [_ H]. repeat (apply elem_of_cons in H as [H|H]; [discriminate H|]).
    by apply elem_of_nil in H. }
  split; [exact (conj Ht Hd)|].
  exact (missing_fields_default 7 ["id"; "tags"; "created_at"] bravo Ht Hd).
Defined.

Lemma NoteType_of_unknown (s : string) :
  (∀ t, NoteType_value t ≠ s) → ∃ msg, NoteType_of (VStr s) = Raise (ValueError msg).
Proof.
  intros Hs. unfold NoteType_of, all_NoteType. cbn [List.find].
  rewrite (proj2 (String.eqb_neq _ _) (Hs FLEETING)).
  rewrite (proj2 (String.eqb_neq _ _) (Hs LITERATURE)).
  rewrite (proj2 (String.eqb_neq _ _) (Hs PERMANENT)).
  rewrite (proj2 (String.eqb_neq _ _) (Hs STRUCTURE)).
  rewrite (proj2 (String.eqb_neq _ _) (Hs HUB)).
  by eexists.
Qed.

(** X22. A stored document whose note type is text that names no member
    of the enumeration cannot be read back: [_document_to_note] raises
    [ValueError]. *)
Theorem unknown_note_type_rejected (now : Z) (n : Note) (s : string) :
  (∀ t, NoteType_value t ≠ s) →
  ∃ msg, _document_to_note now (<["note_type" := VStr s]> (_note_to_document n))
         = Raise (ValueError msg).
Proof.
  intros Hs. destruct (NoteType_of_unknown s Hs) as [msg Hmsg]. exists msg.
  unfold _document_to_note.
  assert (Hk : ∀ k dflt, k ≠ "note_type" →
            dict_get_or (<["note_type" := VStr s]> (_note_to_document n)) k dflt
            = dict_get_or (_note_to_document n) k dflt).
  { intros k dflt Hne. unfold dict_get_or. by rewrite lookup_insert_ne. }
  assert (Hid : dict_get (<["note_type" := VStr s]> (_note_to_document n)) "id"
                = VStr (note_id n)).
  { unfold dict_get. rewrite lookup_insert_ne by done. by rewrite lookup_doc_id. }
  rewrite (Hk "tags"), (Hk "links") by done.
  rewrite (doc_field n "tags" _ (VList (map (fun tag => VStr (name tag)) (tags n))))
    by note_lookup.
  rewrite (doc_field n "links" _ (VList (map link_to_document (links n))))
    by note_lookup.
  cbn [py_iter mbind result_bind].
  rewrite (mapM_Ok_map _ (fun tag => VStr (name tag)) (fun t => t))
    by (by intros [] ?).
  cbn [mbind result_bind].
  rewrite (mapM_Ok_map _ link_to_document (own_link (note_id n)))
    by (intros l _; apply document_to_link_src; by rewrite Hid).
  cbn [mbind result_bind]. rewrite Hid. cbn [py_str mbind result_bind].
  assert (Hnt : ∀ dflt,
            dict_get_or (<["note_type" := VStr s]> (_note_to_document n))
              "note_type" dflt = VStr s).
  { intros dflt. unfold dict_get_or. by rewrite lookup_insert_eq. }
  rewrite Hnt, Hmsg. reflexivity.
Qed.

Lemma unknown_note_type_rejected_witness :
  (∀ t, NoteType_value t ≠ "draft")
  ∧ ∃ msg, _document_to_note 0 (<["note_type" := VStr "draft"]> (_note_to_document alpha))
           = Raise (ValueError msg).
Proof.
  assert (Hs : ∀ t, NoteType_value t ≠ "draft") by (intros []; discriminate).
  split; [exact Hs|].
  exact (unknown_note_type_rejected 0 alpha "draft" Hs).
Defined.

Lemma dom_note_document (n : Note) : dom (_note_to_document n) = note_keys.
Proof.
  unfold _note_to_document, note_keys.
  rewrite !dom_insert_L, dom_singleton_L. set_solver.
Qed.

(** X23. Every document of a reachable collection was written from a
    note: it is the document of some note and holds the nine fields of a
    note document, no more and no fewer. *)
Theorem stored_documents_complete (c : collection) (d : gmap string value) :
  reachable c → d ∈ c →
  (∃ n, d = _note_to_document n) ∧ dom d = note_keys.
Proof.
  intros Hr Hd. destruct (reachable_stores c Hr) as [ns [-> _]].
  apply list_elem_of_fmap in Hd as [n [-> _]].
  split; [by exists n|apply dom_note_document].
Qed.

Lemma stored_documents_complete_witness :
  (reachable one_note ∧ _note_to_document alpha ∈ one_note)
  ∧ (∃ n, _note_to_document alpha = _note_to_document n)
    ∧ dom (_note_to_document alpha) = note_keys.
Proof.
  assert (Hr : reachable one_note) by apply reachable_run, reachable_empty.
  assert (Hd : _note_to_document alpha ∈ one_note).
  { assert (E : one_note = [_note_to_document alpha]) by (vm_compute; reflexivity).
    rewrite E. left. }
  split; [exact (conj Hr Hd)|].
  exact (stored_documents_complete one_note (_note_to_document alpha) Hr Hd).
Defined.

(** [test_mongo_repository_search_and_tags], the tags. *)
Example all_tags_of_languages :
  map name <$> get_all_tags languages = Ok ["javascript"; "lang"; "python"].
Proof. vm_compute. reflexivity. Qed.
